(** * Agent pool allocator and session broadcast hub

    A shallow embedding of two classes of the scalable backend:
    - [ContainerService] (app/services/container_service.py), which hands the
      pre-created agent containers out to sessions;
    - [AgentWebSocketManager] and [websocket_endpoint]
      (app/websocket/agent_ws.py), which keep the observer connections of each
      session and fan events out to them.

    Python sets and dicts are stdpp [gset]s and [gmap]s.  Code that can raise
    is modelled with an explicit outcome, so that "does not raise" is a
    property to prove and not a convention of the model. *)

From stdpp Require Import gmap strings pretty list fin_maps fin_sets.
From Stdlib Require Import ZArith NArith Ascii.

Set Default Proof Using "Type".
Set Warnings "-clear-no-such-hyp,-register-all".

(* ===================================================================== *)
(** * Part I: ContainerService *)
(* ===================================================================== *)

Module Allocator.

(** One entry of [self.agent_pool]. *)
Record agent_info := AgentInfo {
  vnc_port : Z;
  novnc_port : Z;
  container_name : string;
}.

(** The three attributes that [__init__] sets ([self.client] is always
    [None] and is never read by the two operations below). *)
Record ContainerService := Service {
  agent_pool : gmap string agent_info;
  available_agents : gset string;
  session_assignments : gmap string string;  (* session_id -> agent_id *)
}.

(** [__init__] for an arbitrary table of pre-created containers: every agent
    is available and no session holds one. *)
Definition new_service (pool : gmap string agent_info) : ContainerService :=
  {| agent_pool := pool;
     available_agents := dom pool;
     session_assignments := ∅ |}.

(** The table written in [__init__]. *)
Definition default_pool : gmap string agent_info :=
  <["agent-1" := AgentInfo 5900 6900 "scalable-backend-agent-1-1"]>
  (<["agent-2" := AgentInfo 5901 6901 "scalable-backend-agent-2-1"]>
  (<["agent-3" := AgentInfo 5902 6902 "scalable-backend-agent-3-1"]> ∅)).

Definition init : ContainerService := new_service default_pool.

(** A pool of two agents, for the examples. *)
Definition pool_of_two : gmap string agent_info :=
  <["a1" := AgentInfo 5900 6900 "c1"]> (<["a2" := AgentInfo 5901 6901 "c2"]> ∅).

(** What a call does: it returns a value or raises an exception, of which
    only [str(e)] is kept. *)
Inductive outcome (A : Type) : Type :=
  | Returned (a : A)
  | Raised (msg : string).
Arguments Returned {A} a.
Arguments Raised {A} msg.

Definition is_returned {A} (o : outcome A) : bool :=
  match o with Returned _ => true | Raised _ => false end.

(** [set.pop()] removes and returns an arbitrary element.  Which one is not
    fixed by the language; the choice is resolved by [pick], an index into
    the elements of the set, so that every element can be the one popped
    (lemma [set_pop_any]).  On the empty set Python raises [KeyError]. *)
Definition set_pop (pick : nat) (s : gset string) : option (string * gset string) :=
  let l := elements s in
  match l !! (pick mod length l) with
  | Some a => Some (a, s ∖ {[a]})
  | None => None
  end.

Definition no_agents_msg : string :=
  "No available agent containers. All agents are busy.".

(** [create_session_container(session_id, config)].  [config] is not read by
    the body and is left out.  The state returned is the state of [self] when
    the call ends, by return or by exception. *)
Definition create_session_container (pick : nat) (st : ContainerService)
    (session_id : string) : outcome (string * Z) * ContainerService :=
  if decide (available_agents st = ∅) then
    (Raised no_agents_msg, st)
  else
    match set_pop pick (available_agents st) with
    | None => (Raised "'pop from an empty set'", st)
    | Some (agent_id, rest) =>
        let st1 := {| agent_pool := agent_pool st;
                      available_agents := rest;
                      session_assignments := session_assignments st |} in
        match agent_pool st !! agent_id with
        | None => (Raised ("'" +:+ agent_id +:+ "'"), st1)
        | Some agent_info =>
            (Returned (container_name agent_info, vnc_port agent_info),
             {| agent_pool := agent_pool st;
                available_agents := rest;
                session_assignments :=
                  <[session_id := agent_id]> (session_assignments st) |})
        end
    end.

(** [stop_session_container(session_id)].  Inside the [try] only [set.add]
    and a [del] of a key that was just found are run, so the [except] arm is
    never entered. *)
Definition stop_session_container (st : ContainerService)
    (session_id : string) : bool * ContainerService :=
  match session_assignments st !! session_id with
  | None => (false, st)
  | Some agent_id =>
      (true,
       {| agent_pool := agent_pool st;
          available_agents := {[agent_id]} ∪ available_agents st;
          session_assignments := delete session_id (session_assignments st) |})
  end.

(** Sequences of calls. *)
Inductive call :=
  | Acquire (pick : nat) (session_id : string)
  | Release (session_id : string).

Definition step (st : ContainerService) (c : call) : ContainerService :=
  match c with
  | Acquire pick sid => (create_session_container pick st sid).2
  | Release sid => (stop_session_container st sid).2
  end.

Definition run (calls : list call) (st : ContainerService) : ContainerService :=
  foldl step st calls.

(** The agents bound to some session: the values of the assignment map. *)
Definition assigned (st : ContainerService) : gset string :=
  map_img (session_assignments st).

(** Every [Acquire] of the sequence is for a session that holds no agent at
    the moment of the call (what the routers do: a fresh uuid on creation, a
    release before the acquire on restart). *)
Fixpoint fresh_acquires (calls : list call) (st : ContainerService) : bool :=
  match calls with
  | [] => true
  | c :: rest =>
      match c with
      | Acquire _ sid => bool_decide (session_assignments st !! sid = None)
      | Release _ => true
      end && fresh_acquires rest (step st c)
  end.

(** Acquire for each request in turn, collecting the outcomes. *)
Fixpoint acquire_all (reqs : list (nat * string)) (st : ContainerService)
    : list (outcome (string * Z)) * ContainerService :=
  match reqs with
  | [] => ([], st)
  | (pick, sid) :: rest =>
      let '(o, st1) := create_session_container pick st sid in
      let '(os, st2) := acquire_all rest st1 in
      (o :: os, st2)
  end.

(** The invariant that holds whatever the callers do. *)
Record pool_inv (st : ContainerService) : Prop := PoolInv {
  inv_disjoint : available_agents st ## assigned st;
  inv_within : available_agents st ∪ assigned st ⊆ dom (agent_pool st);
  inv_exclusive : ∀ s1 s2 a,
    session_assignments st !! s1 = Some a →
    session_assignments st !! s2 = Some a → s1 = s2;
}.

(** No agent is lost: available and assigned together are the whole pool. *)
Definition partition (st : ContainerService) : Prop :=
  available_agents st ∪ assigned st = dom (agent_pool st).

End Allocator.

(* ===================================================================== *)
(** * Part II: AgentWebSocketManager and websocket_endpoint *)
(* ===================================================================== *)

Module Hub.

(** ** Values *)

(** A [WebSocket] object is used as a dict key and a set member, by identity:
    it is modelled by a number that names the object. *)
Definition WebSocket := nat.

(** A [datetime]: its position on the time line (microseconds) and the text
    that [isoformat()] gives for it. *)
Record datetime := Datetime {
  epoch_us : Z;
  isoformat : string;
}.

(** What [json.loads] can return, and what the event dicts hold (floats are
    left out).  A dict is kept as the list of its items, keys distinct. *)
Inductive value :=
  | VNone
  | VBool (b : bool)
  | VInt (z : Z)
  | VStr (s : string)
  | VList (l : list value)
  | VDict (d : list (string * value)).

(** An event, or an inbound payload: a Python dict with string keys. *)
Definition pydict := list (string * value).

(** [d.get(key, default)] *)
Fixpoint dict_get (d : pydict) (key : string) (default : value) : value :=
  match d with
  | [] => default
  | (k, v) :: rest => if decide (k = key) then v else dict_get rest key default
  end.

(** [v == s] for a string literal [s] *)
Definition eq_str (v : value) (s : string) : bool :=
  match v with
  | VStr s' => bool_decide (s' = s)
  | _ => false
  end.

(** ** The manager *)

(** The dict stored in [connection_metadata] has three fixed keys. *)
Record metadata := Metadata {
  session_id : string;
  user_id : option string;
  connected_at : datetime;
}.

Record AgentWebSocketManager := Manager {
  active_connections : gmap string (gset WebSocket);
  connection_metadata : gmap WebSocket metadata;
}.

(** [__init__] (the [container_service] attribute is never used) *)
Definition new_manager : AgentWebSocketManager :=
  {| active_connections := ∅; connection_metadata := ∅ |}.

(** ** The persistence collaborator *)

Record ChatHistory := ChatRow {
  ch_id : N;                      (* uuid4 *)
  ch_session_id : string;
  ch_message : value;
  ch_message_type : string;
  ch_timestamp : datetime;
  ch_message_metadata : value;    (* the value handed to json.dumps *)
}.

Record Database := Db {
  db_sessions : gmap string datetime;   (* session id -> last_activity *)
  db_chat_history : list ChatHistory;
}.

(** ** What lies outside the process *)

(** The state of the transport under a WebSocket during one call:
    - [LinkOpen]: [send_text] goes through;
    - [LinkClosed]: [client_state.name] is [DISCONNECTED];
    - [LinkBroken]: the state is not yet [DISCONNECTED] but [send_text]
      raises. *)
Inductive link_state := LinkOpen | LinkClosed | LinkBroken.

Definition client_state_name (l : link_state) : string :=
  match l with
  | LinkClosed => "DISCONNECTED"
  | LinkOpen | LinkBroken => "CONNECTED"
  end.

(** The environment of one call.  The clock, the uuid generator and the
    database faults are sequences: the n-th read of the clock gives
    [clock n], and so on; no relation between successive readings is
    assumed.  [py_repr] is Python's [str()] on a value that is not a string,
    as used by an f-string. *)
Record Env := {
  link : WebSocket → link_state;
  clock : nat → datetime;
  uuid4 : nat → N;
  commit_fails : nat → bool;
  py_repr : value → string;
}.

(** ** State and exceptions *)

Inductive exn :=
  | HTTPException (status_code : Z) (detail : string)
  | JSONDecodeError
  | WebSocketDisconnect
  | AttributeError (msg : string)
  | SendError (msg : string)
  | DBError (msg : string).

(** [str(e)]; for an [HTTPException] it is the status code, a colon and the
    detail. *)
Definition str_exn (e : exn) : string :=
  match e with
  | HTTPException code detail => pretty code +:+ ": " +:+ detail
  | JSONDecodeError => "Expecting value"
  | WebSocketDisconnect => ""
  | AttributeError msg | SendError msg | DBError msg => msg
  end.

(** Everything the calls read and write: the manager, the frames delivered
    so far (oldest first), the database, and how many clock readings, uuids
    and commits were consumed. *)
Record State := St {
  mgr : AgentWebSocketManager;
  sent : list (WebSocket * pydict);
  db : Database;
  ticks : nat;
  uuids : nat;
  commits : nat;
}.

Definition initial_state (d : Database) : State :=
  {| mgr := new_manager; sent := []; db := d; ticks := 0; uuids := 0; commits := 0 |}.

Definition with_mgr (m : AgentWebSocketManager) (s : State) : State :=
  {| mgr := m; sent := sent s; db := db s;
     ticks := ticks s; uuids := uuids s; commits := commits s |}.

Inductive result (A : Type) : Type :=
  | Ok (a : A)
  | Raise (e : exn).
Arguments Ok {A} a.
Arguments Raise {A} e.

(** A call: from a state to a result and a state. *)
Definition M (A : Type) : Type := State → result A * State.

Definition ret {A} (a : A) : M A := λ s, (Ok a, s).

Definition raise {A} (e : exn) : M A := λ s, (Raise e, s).

Definition bind {A B} (c : M A) (k : A → M B) : M B :=
  λ s, match c s with
       | (Ok a, s') => k a s'
       | (Raise e, s') => (Raise e, s')
       end.

(** [try: c  except Exception as e: h e] *)
Definition try_except {A} (c : M A) (h : exn → M A) : M A :=
  λ s, match c s with
       | (Ok a, s') => (Ok a, s')
       | (Raise e, s') => h e s'
       end.

(** [try: c  finally: f] *)
Definition try_finally {A} (c : M A) (f : M unit) : M A :=
  λ s, match c s with
       | (r, s') =>
           match f s' with
           | (Ok _, s'') => (r, s'')
           | (Raise e, s'') => (Raise e, s'')
           end
       end.

Declare Scope hub_scope.
Delimit Scope hub_scope with hub.
Notation "x <- c1 ;; c2" := (bind c1 (λ x, c2))
  (at level 100, c1 at next level, right associativity) : hub_scope.
Notation "c1 ;; c2" := (bind c1 (λ _, c2))
  (at level 100, right associativity) : hub_scope.
Local Open Scope hub_scope.

(** [for x in l: body x] *)
Fixpoint for_each {A} (l : list A) (body : A → M unit) : M unit :=
  match l with
  | [] => ret tt
  | x :: rest => body x ;; for_each rest body
  end.

Definition get_mgr : M AgentWebSocketManager := λ s, (Ok (mgr s), s).

Definition put_mgr (m : AgentWebSocketManager) : M unit :=
  λ s, (Ok tt, with_mgr m s).

(** [datetime.utcnow()] *)
Definition utcnow (env : Env) : M datetime :=
  λ s, (Ok (clock env (ticks s)),
        {| mgr := mgr s; sent := sent s; db := db s;
           ticks := S (ticks s); uuids := uuids s; commits := commits s |}).

(** [await websocket.send_text(json.dumps(message, default=str))]: the frame
    is delivered when the link is open, and the call raises otherwise. *)
Definition send_text (env : Env) (websocket : WebSocket) (message : pydict) : M unit :=
  λ s, match link env websocket with
       | LinkOpen =>
           (Ok tt,
            {| mgr := mgr s; sent := sent s ++ [(websocket, message)]; db := db s;
               ticks := ticks s; uuids := uuids s; commits := commits s |})
       | LinkClosed | LinkBroken =>
           (Raise (SendError "Cannot call send once the connection is closed"), s)
       end.

(** ** connect, disconnect, send, broadcast *)

(** The body of [disconnect], as a change of the two dicts. *)
Definition disconnect_mgr (websocket : WebSocket) (m : AgentWebSocketManager)
    : AgentWebSocketManager :=
  match connection_metadata m !! websocket with
  | None => m
  | Some md =>
      let sid := session_id md in
      {| active_connections :=
           match active_connections m !! sid with
           | None => active_connections m
           | Some conns =>
               let conns' := conns ∖ {[websocket]} in
               if decide (conns' = ∅)
               then delete sid (active_connections m)
               else <[sid := conns']> (active_connections m)
           end;
         connection_metadata := delete websocket (connection_metadata m) |}
  end.

(** [disconnect(websocket)].  Every lookup in its [try] is guarded by a
    membership test, so nothing is raised there. *)
Definition disconnect (websocket : WebSocket) : M unit :=
  m <- get_mgr ;; put_mgr (disconnect_mgr websocket m).

(** [send_to_websocket(websocket, message)] *)
Definition send_to_websocket (env : Env) (websocket : WebSocket) (message : pydict)
    : M unit :=
  try_except
    (if decide (client_state_name (link env websocket) = "DISCONNECTED")
     then disconnect websocket
     else send_text env websocket message)
    (λ _, disconnect websocket).

(** [broadcast_to_session(session_id, message)]: [list(...)] takes the
    snapshot, in the iteration order of the set. *)
Definition broadcast_to_session (env : Env) (sid : string) (message : pydict)
    : M unit :=
  m <- get_mgr ;;
  match active_connections m !! sid with
  | None => ret tt
  | Some conns =>
      let connections := elements conns in
      for_each connections (λ websocket, send_to_websocket env websocket message)
  end.

(** [connect(websocket, session_id, user_id)]; [websocket.accept()] is taken
    to succeed. *)
Definition connect (env : Env) (websocket : WebSocket) (sid : string)
    (uid : option string) : M unit :=
  m <- get_mgr ;;
  let conns := default ∅ (active_connections m !! sid) in
  let m1 := {| active_connections :=
                 <[sid := {[websocket]} ∪ conns]> (active_connections m);
               connection_metadata := connection_metadata m |} in
  put_mgr m1 ;;
  t <- utcnow env ;;
  put_mgr {| active_connections := active_connections m1;
             connection_metadata :=
               <[websocket := Metadata sid uid t]> (connection_metadata m1) |} ;;
  t' <- utcnow env ;;
  send_to_websocket env websocket
    [("type", VStr "connection"); ("status", VStr "connected");
     ("session_id", VStr sid); ("timestamp", VStr (isoformat t'))].

(** ** Messages *)

(** [str(uuid)]: 32 lower-case hexadecimal digits in groups of 8-4-4-4-12. *)
Definition hex_digit (n : N) : Ascii.ascii :=
  match n with
  | 0 => "0" | 1 => "1" | 2 => "2" | 3 => "3" | 4 => "4" | 5 => "5"
  | 6 => "6" | 7 => "7" | 8 => "8" | 9 => "9" | 10 => "a" | 11 => "b"
  | 12 => "c" | 13 => "d" | 14 => "e" | _ => "f"
  end%N%char.

Fixpoint hex_fixed (digits : nat) (x : N) : string :=
  match digits with
  | O => ""
  | S d => hex_fixed d (x / 16) +:+ String (hex_digit (x mod 16)) ""
  end.

Definition uuid_str (u : N) : string :=
  hex_fixed 8 (u / 2 ^ 96) +:+ "-" +:+ hex_fixed 4 (u / 2 ^ 80) +:+ "-" +:+
  hex_fixed 4 (u / 2 ^ 64) +:+ "-" +:+ hex_fixed 4 (u / 2 ^ 48) +:+ "-" +:+
  hex_fixed 12 u.

(** What an f-string puts in place of [{v}] *)
Definition fstr (env : Env) (v : value) : string :=
  match v with
  | VStr s => s
  | _ => py_repr env v
  end.

(** [await db.get(Session, session_id)] *)
Definition db_get_session (sid : string) : M (option datetime) :=
  λ s, (Ok (db_sessions (db s) !! sid), s).

(** [db.add(row); (session.last_activity = t;) await db.commit()], then the
    id of the row.  The id is drawn when the row is written.  A failed commit
    writes nothing. *)
Definition db_commit (env : Env) (row : N → ChatHistory)
    (touch : option (string * datetime)) : M N :=
  λ s,
    if commit_fails env (commits s) then
      (Raise (DBError "commit failed"),
       {| mgr := mgr s; sent := sent s; db := db s;
          ticks := ticks s; uuids := uuids s; commits := S (commits s) |})
    else
      let id := uuid4 env (uuids s) in
      (Ok id,
       {| mgr := mgr s; sent := sent s;
          db := {| db_sessions :=
                     match touch with
                     | Some (sid, t) => <[sid := t]> (db_sessions (db s))
                     | None => db_sessions (db s)
                     end;
                   db_chat_history := db_chat_history (db s) ++ [row id] |};
          ticks := ticks s; uuids := S (uuids s); commits := S (commits s) |}).

(** [_simulate_agent_response(session_id, user_message)]; the one-second
    sleep is not modelled. *)
Definition _simulate_agent_response (env : Env) (sid : string) (user_message : value)
    : M unit :=
  let response_content :=
    "I received your message: '" +:+ fstr env user_message +:+
    "'. This is a simulated response from the agent container." in
  t <- utcnow env ;;
  id <- db_commit env
          (λ id, ChatRow id sid (VStr response_content) "assistant" t
                   (VDict [("simulated", VBool true)]))
          None ;;
  t' <- utcnow env ;;
  broadcast_to_session env sid
    [("type", VStr "agent_message"); ("content", VStr response_content);
     ("timestamp", VStr (isoformat t')); ("message_id", VStr (uuid_str id))].

Definition user_message_event (content : value) (t : datetime) (id : N) : pydict :=
  [("type", VStr "user_message"); ("content", content);
   ("timestamp", VStr (isoformat t)); ("message_id", VStr (uuid_str id))].

Definition error_event (message : string) (t : datetime) : pydict :=
  [("type", VStr "error"); ("message", VStr message);
   ("timestamp", VStr (isoformat t))].

(** [handle_user_message(session_id, message_data)] *)
Definition handle_user_message (env : Env) (sid : string) (message_data : pydict)
    : M unit :=
  try_except
    (session <- db_get_session sid ;;
     match session with
     | None => raise (HTTPException 404 "Session not found")
     | Some _ =>
         t <- utcnow env ;;
         t_activity <- utcnow env ;;
         id <- db_commit env
                 (λ id, ChatRow id sid (dict_get message_data "content" (VStr ""))
                          "user" t (dict_get message_data "metadata" (VDict [])))
                 (Some (sid, t_activity)) ;;
         t' <- utcnow env ;;
         broadcast_to_session env sid
           (user_message_event (dict_get message_data "content" (VStr "")) t' id) ;;
         _simulate_agent_response env sid (dict_get message_data "content" (VStr ""))
     end)
    (λ e,
       t <- utcnow env ;;
       broadcast_to_session env sid
         (error_event ("Error processing message: " +:+ str_exn e) t)).

(** The event that [_simulate_agent_response] broadcasts. *)
Definition agent_message_event (content : string) (t : datetime) (id : N) : pydict :=
  [("type", VStr "agent_message"); ("content", VStr content);
   ("timestamp", VStr (isoformat t)); ("message_id", VStr (uuid_str id))].

(** The text of the simulated answer to [user_message]. *)
Definition simulated_answer (env : Env) (user_message : value) : string :=
  "I received your message: '" +:+ fstr env user_message +:+
  "'. This is a simulated response from the agent container.".

(** The event that [handle_container_event] broadcasts. *)
Definition container_event (event_type : string) (data : pydict) (t : datetime)
    : pydict :=
  [("type", VStr event_type); ("data", VDict data);
   ("timestamp", VStr (isoformat t))].

(** [handle_container_event(session_id, event_type, data)]: screenshots and
    tool results are stored before the broadcast; the [except] arm only
    logs. *)
Definition handle_container_event (env : Env) (sid : string) (event_type : string)
    (data : pydict) : M unit :=
  try_except
    ((if bool_decide (event_type ∈ ["screenshot"; "tool_result"]) then
        t <- utcnow env ;;
        _ <- db_commit env
               (λ id, ChatRow id sid (dict_get data "message" (VStr "")) "tool" t
                        (VDict data))
               None ;;
        ret tt
      else ret tt) ;;
     t' <- utcnow env ;;
     broadcast_to_session env sid (container_event event_type data t'))
    (λ _, ret tt).

(** ** Queries *)

Record connection_info := ConnInfo {
  ci_user_id : option string;
  ci_connected_at : string;
  ci_duration_us : Z;   (* total_seconds(), counted in microseconds *)
}.

(** The dict that [get_session_stats] returns; [stat_connections] is [None]
    when the dict has no ['connections'] key. *)
Record session_stats := Stats {
  stat_active_connections : nat;
  stat_connections : option (list connection_info);
}.

(** The loop body of [get_session_stats]: one entry for a connection with
    metadata, nothing for one without. *)
Definition stats_entry (env : Env) (m : AgentWebSocketManager) (ws : WebSocket)
    : M (list connection_info) :=
  match connection_metadata m !! ws with
  | None => ret []
  | Some md =>
      now <- utcnow env ;;
      ret [ConnInfo (user_id md) (isoformat (connected_at md))
             (epoch_us now - epoch_us (connected_at md))]
  end.

Fixpoint stats_entries (env : Env) (m : AgentWebSocketManager) (l : list WebSocket)
    : M (list connection_info) :=
  match l with
  | [] => ret []
  | ws :: rest =>
      e <- stats_entry env m ws ;;
      es <- stats_entries env m rest ;;
      ret (e ++ es)
  end.

(** [get_session_stats(session_id)] *)
Definition get_session_stats (env : Env) (sid : string) : M session_stats :=
  m <- get_mgr ;;
  match active_connections m !! sid with
  | None => ret (Stats 0 None)
  | Some connections =>
      connection_info <- stats_entries env m (elements connections) ;;
      ret (Stats (size connections) (Some connection_info))
  end.

(** The entry that [get_session_stats] builds from the metadata [md] when it
    reads the clock for the [k]-th time after [t0] readings. *)
Definition entry_at (env : Env) (t0 k : nat) (md : metadata) : connection_info :=
  ConnInfo (user_id md) (isoformat (connected_at md))
    (epoch_us (clock env (t0 + k)) - epoch_us (connected_at md)).

(** [get_all_sessions()] *)
Definition get_all_sessions (m : AgentWebSocketManager) : gmap string nat :=
  size <$> active_connections m.

(** The dict returned by the route [get_websocket_overview] of
    routers/sessions.py: the number of keys of the overview, the sum of its
    values and the overview itself.  Nothing in its [try] can raise. *)
Record websocket_overview := Overview {
  total_sessions : nat;
  total_connections : nat;
  overview_sessions : gmap string nat;
}.

Definition get_websocket_overview (m : AgentWebSocketManager) : websocket_overview :=
  let overview := get_all_sessions m in
  {| total_sessions := size overview;
     total_connections := sum_list (map_to_list overview).*2;
     overview_sessions := overview |}.

(** ** The receive loop of websocket_endpoint *)

(** What one [receive_text()] followed by [json.loads] can give: the
    transport reports the disconnect, the text is not JSON, or a value. *)
Inductive frame :=
  | FrameDisconnect
  | FrameNotJson
  | FrameJson (message : value).

Inductive loop_ctl := Continue | Break.

Definition receive_json (f : frame) : M value :=
  match f with
  | FrameDisconnect => raise WebSocketDisconnect
  | FrameNotJson => raise JSONDecodeError
  | FrameJson message => ret message
  end.

Definition pong_event (t : datetime) : pydict :=
  [("type", VStr "pong"); ("timestamp", VStr (isoformat t))].

(** One turn of the [while True] loop. *)
Definition receive_step (env : Env) (websocket : WebSocket) (sid : string)
    (f : frame) : M loop_ctl :=
  try_except
    (message <- receive_json f ;;
     match message with
     | VDict d =>
         let message_type := dict_get d "type" (VStr "message") in
         if eq_str message_type "message" then
           handle_user_message env sid d ;; ret Continue
         else if eq_str message_type "ping" then
           t <- utcnow env ;;
           send_to_websocket env websocket (pong_event t) ;; ret Continue
         else ret Continue
     | _ => raise (AttributeError "object has no attribute 'get'")
     end)
    (λ e,
       match e with
       | JSONDecodeError =>
           t <- utcnow env ;;
           send_to_websocket env websocket
             (error_event "Invalid JSON message format" t) ;;
           ret Continue
       | WebSocketDisconnect => ret Break
       | _ =>
           try_except
             (t <- utcnow env ;;
              send_to_websocket env websocket
                (error_event ("Error processing message: " +:+ str_exn e) t) ;;
              ret Continue)
             (λ _, ret Break)
       end).

(** The loop over the frames that arrive, each with the environment at that
    moment.  Every real connection ends with a disconnect; a list that runs
    out stands for it. *)
Fixpoint receive_loop (websocket : WebSocket) (sid : string)
    (frames : list (Env * frame)) : M unit :=
  match frames with
  | [] => ret tt
  | (env, f) :: rest =>
      ctl <- receive_step env websocket sid f ;;
      match ctl with
      | Break => ret tt
      | Continue => receive_loop websocket sid rest
      end
  end.

(** [websocket_endpoint(websocket, session_id)] *)
Definition websocket_endpoint (env : Env) (websocket : WebSocket) (sid : string)
    (frames : list (Env * frame)) : M unit :=
  try_finally
    (try_except
       (connect env websocket sid None ;;
        receive_loop websocket sid frames)
       (λ _, ret tt))
    (disconnect websocket).

(** ** Sequences of manager calls *)

Inductive hub_op :=
  | OpConnect (websocket : WebSocket) (sid : string) (uid : option string)
  | OpDisconnect (websocket : WebSocket)
  | OpSend (websocket : WebSocket) (message : pydict)
  | OpBroadcast (sid : string) (message : pydict)
  | OpReceive (websocket : WebSocket) (sid : string) (f : frame).

Definition hub_call (env : Env) (op : hub_op) : M unit :=
  match op with
  | OpConnect ws sid uid => connect env ws sid uid
  | OpDisconnect ws => disconnect ws
  | OpSend ws message => send_to_websocket env ws message
  | OpBroadcast sid message => broadcast_to_session env sid message
  | OpReceive ws sid f => receive_step env ws sid f ;; ret tt
  end.

Definition hub_step (s : State) (c : Env * hub_op) : State :=
  (hub_call c.1 c.2 s).2.

Definition hub_run (trace : list (Env * hub_op)) (s : State) : State :=
  foldl hub_step s trace.

(** No [connect] of the trace is for a WebSocket that is registered at that
    moment: a WebSocket is connected again only after it was disconnected. *)
Fixpoint connects_once (trace : list (Env * hub_op)) (s : State) : bool :=
  match trace with
  | [] => true
  | c :: rest =>
      match c.2 with
      | OpConnect ws _ _ => bool_decide (connection_metadata (mgr s) !! ws = None)
      | _ => true
      end && connects_once rest (hub_step s c)
  end.

(** The two dicts agree: a WebSocket has metadata naming session [sid]
    exactly when it is in the set stored under [sid], and no stored set is
    empty. *)
Definition hub_consistent (m : AgentWebSocketManager) : Prop :=
  (∀ ws sid,
     (∃ md, connection_metadata m !! ws = Some md ∧ session_id md = sid) ↔
     (∃ conns, active_connections m !! sid = Some conns ∧ ws ∈ conns)) ∧
  (∀ sid conns, active_connections m !! sid = Some conns → conns ≠ ∅).

(** The observers of a session: the stored set, or the empty set when the
    session has no key. *)
Definition observers (m : AgentWebSocketManager) (sid : string) : gset WebSocket :=
  default ∅ (active_connections m !! sid).

(** The frames delivered after the first [n] of the log. *)
Definition delivered_since (n : nat) (s : State) : list (WebSocket * pydict) :=
  drop n (sent s).

(** Whether a send to [ws] goes through. *)
Definition send_ok (env : Env) (ws : WebSocket) : bool :=
  match link env ws with
  | LinkOpen => true
  | LinkClosed | LinkBroken => false
  end.

(** The state after one [send_to_websocket]. *)
Definition deliver (env : Env) (message : pydict) (s : State) (ws : WebSocket) : State :=
  (send_to_websocket env ws message s).2.

(** An environment to run examples in: the links of the WebSockets in [down]
    are broken, the commits whose numbers are in [faults] fail, the n-th
    clock reading is n seconds after the epoch. *)
Definition example_env (down : list WebSocket) (faults : list nat) : Env :=
  {| link := λ w, if bool_decide (w ∈ down) then LinkBroken else LinkOpen;
     clock := λ n, Datetime (1000000 * Z.of_nat n) "1970-01-01T00:00:00";
     uuid4 := λ n, (0x123e4567e89b42d3a456426614174000 + N.of_nat n)%N;
     commit_fails := λ n, bool_decide (n ∈ faults);
     py_repr := λ _, "" |}.

(** A database that knows session s1, and the state after two WebSockets, 1
    and 2, connected to s1. *)
Definition example_db : Database :=
  {| db_sessions := {[ "s1" := Datetime 0 "1970-01-01T00:00:00" ]};
     db_chat_history := [] |}.

Definition two_observers : State :=
  hub_run [(example_env [] [], OpConnect 1 "s1" None);
           (example_env [] [], OpConnect 2 "s1" None)]
          (initial_state example_db).

(** The payload of the scenario: [{"type": "message", "content": "hi"}]. *)
Definition hi_payload : pydict :=
  [("type", VStr "message"); ("content", VStr "hi")].

(** What one turn of the broadcast loop does to the manager. *)
Definition drop_failed (env : Env) (m : AgentWebSocketManager) (w : WebSocket)
    : AgentWebSocketManager :=
  if send_ok env w then m else disconnect_mgr w m.

(** Whether a parsed value is a JSON object, that is a Python dict. *)
Definition is_object (v : value) : bool :=
  match v with
  | VDict _ => true
  | _ => false
  end.



(** The observers of a session to whom a send fails. *)
Definition failing (env : Env) (m : AgentWebSocketManager) (sid : string)
    : list WebSocket :=
  filter (λ w, send_ok env w = false) (elements (observers m sid)).

(** The observers of a session to whom a send goes through, in iteration
    order. *)
Definition reachable (env : Env) (m : AgentWebSocketManager) (sid : string)
    : list WebSocket :=
  filter (λ w, send_ok env w) (elements (observers m sid)).

(** Every run of [c] relates the state before to the state after. *)
Definition respects (R : State → State → Prop) {A} (c : M A) : Prop :=
  ∀ s, R s (c s).2.

(** The log only grows. *)
Definition sent_extends (s s' : State) : Prop :=
  ∃ l, sent s' = sent s ++ l.

(** A property of the manager is kept. *)
Definition keeps (P : AgentWebSocketManager → Prop) (s s' : State) : Prop :=
  P (mgr s) → P (mgr s').

End Hub.

(* ===================================================================== *)
(** * Facts about ContainerService *)
(* ===================================================================== *)

Module AllocatorFacts.
Import Allocator.

(** ** [set.pop] *)

Lemma set_pop_spec pick s a rest :
  set_pop pick s = Some (a, rest) → a ∈ s ∧ rest = s ∖ {[a]}.
Proof.
  unfold set_pop. destruct (elements s !! _) as [b|] eqn:E; [|done].
  intros [= <- <-]. split; [|done].
  apply elem_of_elements, list_elem_of_lookup. eauto.
Qed.

Lemma set_pop_nonempty pick s :
  s ≠ ∅ → ∃ a, a ∈ s ∧ set_pop pick s = Some (a, s ∖ {[a]}).
Proof.
  intros Hne. unfold set_pop.
  assert (elements s ≠ []) as Hl.
  { intros E. apply Hne. apply leibniz_equiv, elements_empty_iff. done. }
  assert (pick mod length (elements s) < length (elements s)) as Hlt.
  { apply Nat.mod_upper_bound. destruct (elements s); simpl; [done | lia]. }
  apply lookup_lt_is_Some in Hlt as [a Ha]. exists a. rewrite Ha. split; [|done].
  apply elem_of_elements, list_elem_of_lookup. eauto.
Qed.

(** Every element of the set is popped under some resolution of the choice. *)
Lemma set_pop_any s a :
  a ∈ s → ∃ pick, set_pop pick s = Some (a, s ∖ {[a]}).
Proof.
  intros Ha. apply elem_of_elements, list_elem_of_lookup in Ha as [i Hi].
  exists i. unfold set_pop.
  rewrite Nat.mod_small; [by rewrite Hi | by eapply lookup_lt_Some].
Qed.

(** ** The shape of a call's result *)

Lemma create_exhausted pick st sid :
  available_agents st = ∅ →
  create_session_container pick st sid = (Raised no_agents_msg, st).
Proof. intros E. unfold create_session_container. by rewrite decide_True. Qed.

Lemma create_success pick st sid :
  available_agents st ≠ ∅ →
  available_agents st ⊆ dom (agent_pool st) →
  ∃ a info,
    a ∈ available_agents st ∧ agent_pool st !! a = Some info ∧
    create_session_container pick st sid =
      (Returned (container_name info, vnc_port info),
       {| agent_pool := agent_pool st;
          available_agents := available_agents st ∖ {[a]};
          session_assignments := <[sid := a]> (session_assignments st) |}).
Proof.
  intros Hne Hsub. unfold create_session_container.
  rewrite decide_False by done.
  destruct (set_pop_nonempty pick _ Hne) as (a & Ha & ->).
  assert (is_Some (agent_pool st !! a)) as [info Hinfo].
  { apply elem_of_dom. set_solver. }
  exists a, info. by rewrite Hinfo.
Qed.

Lemma stop_unassigned st sid :
  session_assignments st !! sid = None →
  stop_session_container st sid = (false, st).
Proof. intros E. unfold stop_session_container. by rewrite E. Qed.

Lemma pool_fixed_step st c : agent_pool (step st c) = agent_pool st.
Proof.
  destruct c as [pick sid|sid]; simpl.
  - unfold create_session_container. case_decide; [done|].
    destruct (set_pop _ _) as [[a rest]|]; [|done].
    by destruct (agent_pool st !! a).
  - unfold stop_session_container. by destruct (_ !! sid).
Qed.

Lemma pool_fixed_run calls st : agent_pool (run calls st) = agent_pool st.
Proof.
  revert st. induction calls as [|c calls IH]; intros st; [done|].
  unfold run in *. simpl. by rewrite IH, pool_fixed_step.
Qed.

(** ** The invariant *)

Lemma pool_inv_new pool : pool_inv (new_service pool).
Proof.
  split; unfold assigned; simpl.
  - intros a _ Ha. apply elem_of_map_img in Ha as [i Hi]. by rewrite lookup_empty in Hi.
  - intros a [Ha|Ha]%elem_of_union; [done|].
    apply elem_of_map_img in Ha as [i Hi]. by rewrite lookup_empty in Hi.
  - intros s1 s2 a H1. by rewrite lookup_empty in H1.
Qed.

Lemma partition_new pool : partition (new_service pool).
Proof.
  unfold partition, assigned; simpl. apply set_eq. intros a.
  rewrite elem_of_union, elem_of_map_img. split; [intros [?|[i Hi]]|by left]; [done|].
  by rewrite lookup_empty in Hi.
Qed.

Lemma pool_inv_acquire pick st sid :
  pool_inv st → pool_inv (create_session_container pick st sid).2.
Proof.
  intros [Hd Hw He]. unfold create_session_container.
  case_decide as Hemp; [by split|].
  destruct (set_pop _ _) as [[a rest]|] eqn:Hpop; [|by split].
  apply set_pop_spec in Hpop as [Ha ->].
  assert (∀ s, session_assignments st !! s ≠ Some a) as Hfree.
  { intros s Hs. apply (Hd a Ha). unfold assigned. apply elem_of_map_img. eauto. }
  destruct (agent_pool st !! a) as [info|]; simpl.
  - split; unfold assigned in *; simpl.
    + intros b Hb [s Hs]%elem_of_map_img.
      destruct (decide (s = sid)) as [->|Hne].
      * rewrite lookup_insert_eq in Hs. set_solver.
      * rewrite lookup_insert_ne in Hs by done.
        apply (Hd b); [set_solver|]. apply elem_of_map_img. eauto.
    + intros b [Hb|[s Hs]%elem_of_map_img]%elem_of_union.
      * apply Hw. set_solver.
      * destruct (decide (s = sid)) as [->|Hne].
        -- rewrite lookup_insert_eq in Hs. injection Hs as <-. apply Hw. set_solver.
        -- rewrite lookup_insert_ne in Hs by done.
           apply Hw, elem_of_union_r, elem_of_map_img. eauto.
    + intros s1 s2 b H1 H2.
      destruct (decide (s1 = sid)) as [->|N1], (decide (s2 = sid)) as [->|N2];
        [done| | |].
      * rewrite lookup_insert_eq in H1. rewrite lookup_insert_ne in H2 by done.
        injection H1 as <-. by destruct (Hfree s2).
      * rewrite lookup_insert_eq in H2. rewrite lookup_insert_ne in H1 by done.
        injection H2 as <-. by destruct (Hfree s1).
      * rewrite lookup_insert_ne in H1, H2 by done. eauto.
  - split; unfold assigned in *; simpl; [set_solver|set_solver|done].
Qed.

Lemma pool_inv_release st sid :
  pool_inv st → pool_inv (stop_session_container st sid).2.
Proof.
  intros [Hd Hw He]. unfold stop_session_container.
  destruct (session_assignments st !! sid) as [a|] eqn:Hsid; [|by split].
  split; unfold assigned in *; simpl.
  - intros b Hb [s Hs]%elem_of_map_img.
    apply lookup_delete_Some in Hs as [Hne Hs].
    apply elem_of_union in Hb as [->%elem_of_singleton|Hb].
    + apply Hne. symmetry. eauto.
    + apply (Hd b Hb), elem_of_map_img. eauto.
  - intros b [[->%elem_of_singleton|Hb]%elem_of_union|[s Hs]%elem_of_map_img]%elem_of_union.
    + apply Hw, elem_of_union_r, elem_of_map_img. eauto.
    + apply Hw. set_solver.
    + apply lookup_delete_Some in Hs as [_ Hs].
      apply Hw, elem_of_union_r, elem_of_map_img. eauto.
  - intros s1 s2 b [_ H1]%lookup_delete_Some [_ H2]%lookup_delete_Some. eauto.
Qed.

Lemma pool_inv_step st c : pool_inv st → pool_inv (step st c).
Proof.
  destruct c; simpl; [apply pool_inv_acquire | apply pool_inv_release].
Qed.

Lemma pool_inv_run calls st : pool_inv st → pool_inv (run calls st).
Proof.
  revert st. induction calls as [|c calls IH]; intros st Hst; [done|].
  apply IH, pool_inv_step, Hst.
Qed.

Lemma partition_acquire_fresh pick st sid :
  pool_inv st → partition st →
  session_assignments st !! sid = None →
  partition (create_session_container pick st sid).2.
Proof.
  intros [Hd Hw He] Hp Hfresh. unfold create_session_container.
  case_decide as Hemp; [done|].
  destruct (set_pop _ _) as [[a rest]|] eqn:Hpop; [|done].
  apply set_pop_spec in Hpop as [Ha ->].
  assert (is_Some (agent_pool st !! a)) as [info Hinfo].
  { apply elem_of_dom, Hw. set_solver. }
  rewrite Hinfo. unfold partition, assigned in *; simpl.
  rewrite <- Hp. apply set_eq. intros b.
  rewrite !elem_of_union, elem_of_difference, !elem_of_map_img, elem_of_singleton.
  split.
  - intros [[Hb _]|[s Hs]]; [by left|].
    destruct (decide (s = sid)) as [->|Hne].
    + rewrite lookup_insert_eq in Hs. injection Hs as <-. by left.
    + rewrite lookup_insert_ne in Hs by done. eauto.
  - intros [Hb|[s Hs]].
    + destruct (decide (b = a)) as [->|Hne]; [|by left].
      right. exists sid. by rewrite lookup_insert_eq.
    + right. exists s. rewrite lookup_insert_ne; [done|]. by intros ->; simplify_eq.
Qed.

Lemma partition_release st sid :
  pool_inv st → partition st → partition (stop_session_container st sid).2.
Proof.
  intros [Hd Hw He] Hp. unfold stop_session_container.
  destruct (session_assignments st !! sid) as [a|] eqn:Hsid; [|done].
  unfold partition, assigned in *; simpl.
  rewrite <- Hp. apply set_eq. intros b.
  rewrite !elem_of_union, !elem_of_map_img, elem_of_singleton.
  split.
  - intros [[->|Hb]|[s Hs]]; [by eauto|by left|].
    apply lookup_delete_Some in Hs as [_ Hs]. eauto.
  - intros [Hb|[s Hs]]; [by eauto|].
    destruct (decide (s = sid)) as [->|Hne].
    + left; left. congruence.
    + right. exists s. by rewrite lookup_delete_ne.
Qed.

Lemma partition_run calls st :
  pool_inv st → partition st → fresh_acquires calls st = true →
  partition (run calls st).
Proof.
  revert st. induction calls as [|c calls IH]; intros st Hinv Hp Hf; [done|].
  simpl in Hf. apply andb_prop in Hf as [Hc Hf].
  apply IH; [by apply pool_inv_step| |done].
  destruct c as [pick sid|sid]; simpl.
  - apply bool_decide_eq_true in Hc. by apply partition_acquire_fresh.
  - by apply partition_release.
Qed.

(** ** Acquiring for several sessions in a row *)

Lemma acquire_all_enough reqs st :
  available_agents st ⊆ dom (agent_pool st) →
  length reqs ≤ size (available_agents st) →
  Forall (λ o, is_returned o = true) (acquire_all reqs st).1 ∧
  agent_pool (acquire_all reqs st).2 = agent_pool st ∧
  available_agents (acquire_all reqs st).2 ⊆ available_agents st ∧
  size (available_agents (acquire_all reqs st).2)
    = size (available_agents st) - length reqs ∧
  dom (session_assignments (acquire_all reqs st).2)
    = dom (session_assignments st) ∪ list_to_set reqs.*2.
Proof.
  revert st. induction reqs as [|[pick sid] reqs IH]; intros st Hsub Hlen; simpl.
  { split_and!; [constructor|done|done|lia|set_solver]. }
  simpl in Hlen.
  assert (available_agents st ≠ ∅) as Hne.
  { intros E. rewrite E, size_empty in Hlen. lia. }
  destruct (create_success pick st sid Hne Hsub) as (a & info & Ha & Hinfo & ->).
  set (st1 := {| agent_pool := agent_pool st;
                 available_agents := available_agents st ∖ {[a]};
                 session_assignments := <[sid:=a]> (session_assignments st) |}).
  assert (size (available_agents st1) = size (available_agents st) - 1) as Hsz.
  { simpl. rewrite size_difference by set_solver. by rewrite size_singleton. }
  destruct (IH st1) as (Hall & Hpool & Hav & Hsize & Hdom).
  { simpl. set_solver. }
  { rewrite Hsz. lia. }
  destruct (acquire_all reqs st1) as [os st2]; simpl in *.
  split_and!.
  - by constructor.
  - done.
  - set_solver.
  - rewrite Hsize, Hsz. lia.
  - rewrite Hdom, dom_insert_L. set_solver.
Qed.

(** ** Examples *)

(** Two agents: s1 and s2 each get one, s3 is refused; once s1 has released,
    s3 gets the agent that s1 held. *)
Example pool_of_two_scenario :
  let st0 := new_service pool_of_two in
  let r1 := create_session_container 0 st0 "s1" in
  let r2 := create_session_container 0 r1.2 "s2" in
  let r3 := create_session_container 0 r2.2 "s3" in
  let r4 := stop_session_container r3.2 "s1" in
  let r5 := create_session_container 0 r4.2 "s3" in
  r1.1 = Returned ("c1", 5900%Z) ∧ r2.1 = Returned ("c2", 5901%Z) ∧
  r3.1 = Raised no_agents_msg ∧ r4.1 = true ∧ r5.1 = r1.1 ∧
  size (available_agents r4.2) = 1.
Proof. by vm_compute. Qed.

Example release_after_acquire :
  (stop_session_container (create_session_container 0 init "s1").2 "s1").1 = true
  ∧ available_agents
      (stop_session_container (create_session_container 0 init "s1").2 "s1").2
    = dom default_pool.
Proof. split; [by vm_compute|]. apply (bool_decide_unpack _). by vm_compute. Qed.

(** ** The claims *)

(** C1 (counterexample).  Available and assigned do not always cover the
    whole pool.  Acquiring twice for the same session overwrites the
    first binding without giving its agent back: after
    [acquire s1; acquire s1] on the three-agent pool one agent is neither
    available nor assigned. *)
Lemma reacquire_breaks_partition :
  let st := run [Acquire 0 "s1"; Acquire 0 "s1"] init in
  elements (available_agents st) = ["agent-2"] ∧
  elements (assigned st) = ["agent-1"] ∧
  "agent-3" ∈ dom (agent_pool st) ∧
  available_agents st ∪ assigned st ≠ dom (agent_pool st).
Proof.
  split_and!; [by vm_compute..| |].
  - apply (bool_decide_unpack _). by vm_compute.
  - apply (bool_decide_eq_false_1 _). by vm_compute.
Qed.

(** C1 (amended).  After each call of any sequence of acquires and releases
    on a fresh service, the available agents and the assigned agents are
    disjoint, both lie inside the pool, and no agent is bound to two
    sessions; if moreover every acquire so far was for a session holding no
    agent at that moment, available and assigned together are the whole
    pool. *)
Theorem partition_after_each_call pool calls n :
  let st := run (take n calls) (new_service pool) in
  available_agents st ## assigned st ∧
  available_agents st ∪ assigned st ⊆ dom pool ∧
  (∀ s1 s2 a,
     session_assignments st !! s1 = Some a →
     session_assignments st !! s2 = Some a → s1 = s2) ∧
  (fresh_acquires (take n calls) (new_service pool) = true →
   available_agents st ∪ assigned st = dom pool).
Proof.
  intros st.
  assert (pool_inv st) as Hinv by apply pool_inv_run, pool_inv_new.
  assert (agent_pool st = pool) as Hpool by apply pool_fixed_run.
  destruct Hinv as [Hd Hw He]. rewrite Hpool in Hw.
  split_and!; [done..|].
  intros Hf. rewrite <- Hpool.
  apply partition_run; [apply pool_inv_new|apply partition_new|done].
Qed.

Lemma partition_after_each_call_witness :
  let st := run [Acquire 0 "s1"; Release "s1"; Acquire 1 "s1"] init in
  available_agents st ∪ assigned st = dom default_pool.
Proof.
  pose proof (partition_after_each_call default_pool
    [Acquire 0 "s1"; Release "s1"; Acquire 1 "s1"] 3) as H.
  simpl in H. destruct H as (_ & _ & _ & H). apply H. vm_compute. reflexivity.
Defined.

(** C2 (counterexample).  Session s1 holds agent-3; a second acquire for s1
    returns another container, rebinds s1 and takes a second agent out of the
    available set, so the call is not idempotent. *)
Lemma reacquire_not_idempotent :
  let st := (create_session_container 0 init "s1").2 in
  let r := create_session_container 0 st "s1" in
  session_assignments st !! "s1" = Some "agent-3" ∧
  elements (available_agents st) = ["agent-1"; "agent-2"] ∧
  r.1 = Returned ("scalable-backend-agent-1-1", 5900%Z) ∧
  session_assignments r.2 !! "s1" = Some "agent-1" ∧
  elements (available_agents r.2) = ["agent-2"] ∧
  r ≠ (Returned ("scalable-backend-agent-3-1", 5902%Z), st).
Proof.
  split_and!; [by vm_compute..|].
  intros E. apply (f_equal (λ r, elements (available_agents r.2))) in E.
  vm_compute in E. discriminate.
Qed.

(** C2 (amended).  In any state reached by acquires and releases, an acquire
    for a session that already holds agent [a] does the same as any other
    acquire: with no agent available it raises the capacity error and changes
    nothing; otherwise it takes one more agent [b], different from [a], out
    of the available set, binds the session to [b] in place of [a] and
    returns the container name and VNC port of [b]. *)
Theorem reacquire_rebinds pool calls pick sid a :
  let st := run calls (new_service pool) in
  session_assignments st !! sid = Some a →
  (available_agents st = ∅ →
   create_session_container pick st sid = (Raised no_agents_msg, st)) ∧
  (available_agents st ≠ ∅ →
   ∃ b info,
     b ∈ available_agents st ∧ b ≠ a ∧ agent_pool st !! b = Some info ∧
     create_session_container pick st sid =
       (Returned (container_name info, vnc_port info),
        {| agent_pool := agent_pool st;
           available_agents := available_agents st ∖ {[b]};
           session_assignments := <[sid := b]> (session_assignments st) |})).
Proof.
  intros st Hsid.
  assert (pool_inv st) as [Hd Hw He] by apply pool_inv_run, pool_inv_new.
  split; [apply create_exhausted|].
  intros Hne.
  destruct (create_success pick st sid Hne) as (b & info & Hb & Hinfo & Hres);
    [set_solver|].
  exists b, info. split_and!; [done| |done..].
  intros ->. apply (Hd a Hb). unfold assigned. apply elem_of_map_img. eauto.
Qed.

Lemma reacquire_rebinds_witness :
  ∃ b info,
    b ≠ "agent-3" ∧ default_pool !! b = Some info ∧
    (create_session_container 0 (run [Acquire 0 "s1"] init) "s1").1 =
      Returned (container_name info, vnc_port info).
Proof.
  destruct (reacquire_rebinds default_pool [Acquire 0 "s1"] 0 "s1" "agent-3")
    as [_ H]; [by vm_compute|].
  destruct H as (b & info & _ & Hne & Hinfo & Hres).
  { apply (bool_decide_eq_false_1 _). by vm_compute. }
  exists b, info. split_and!; [done|done|].
  unfold init. by rewrite Hres.
Defined.

(** C4.  On a fresh service with a pool of N agents, acquiring for N distinct
    sessions returns N times; afterwards each of the N sessions holds an
    agent, none is available, and one more acquire (whatever the session)
    raises the capacity error and leaves the service as it was. *)
Theorem exhaustion_after_pool_size pool reqs :
  NoDup reqs.*2 →
  length reqs = size pool →
  let r := acquire_all reqs (new_service pool) in
  Forall (λ o, is_returned o = true) r.1 ∧
  length r.1 = size pool ∧
  dom (session_assignments r.2) = list_to_set reqs.*2 ∧
  size (session_assignments r.2) = size pool ∧
  available_agents r.2 = ∅ ∧
  ∀ pick sid,
    create_session_container pick r.2 sid = (Raised no_agents_msg, r.2).
Proof.
  intros Hnd Hlen r.
  destruct (acquire_all_enough reqs (new_service pool)) as (Hall & _ & _ & Hsz & Hdom).
  { done. }
  { simpl. rewrite size_dom. lia. }
  fold r in Hall, Hsz, Hdom. simpl in Hsz, Hdom.
  assert (available_agents r.2 = ∅) as Hemp.
  { apply leibniz_equiv, size_empty_iff. rewrite Hsz, size_dom. lia. }
  assert (dom (session_assignments r.2) = list_to_set reqs.*2) as Hdom'.
  { rewrite Hdom, dom_empty_L. set_solver. }
  split_and!; [done| |done| |done|].
  - rewrite <- Hlen. clear -r. subst r. generalize (new_service pool).
    induction reqs as [|[p s] reqs IH]; intros st; simpl; [done|].
    destruct (create_session_container p st s) as [o st1].
    specialize (IH st1). destruct (acquire_all reqs st1). simpl in *. by f_equal.
  - rewrite <- size_dom, Hdom', size_list_to_set by done.
    by rewrite length_fmap.
  - intros pick sid. by apply create_exhausted.
Qed.

Lemma exhaustion_after_pool_size_witness :
  let r := acquire_all [(0, "s1"); (0, "s2"); (0, "s3")] init in
  Forall (λ o, is_returned o = true) r.1 ∧
  create_session_container 0 r.2 "s4" = (Raised no_agents_msg, r.2).
Proof.
  destruct (exhaustion_after_pool_size default_pool
              [(0, "s1"); (0, "s2"); (0, "s3")]) as (H1 & _ & _ & _ & _ & H2).
  - apply (bool_decide_unpack _). by vm_compute.
  - by vm_compute.
  - split; [exact H1 | exact (H2 0 "s4")].
Defined.

(** C6.  A release for a session that holds no agent returns false and
    leaves the service untouched, and so does a second release right after
    it. *)
Theorem release_unassigned_is_noop st sid :
  session_assignments st !! sid = None →
  stop_session_container st sid = (false, st) ∧
  stop_session_container (stop_session_container st sid).2 sid = (false, st).
Proof.
  intros Hnone. rewrite !stop_unassigned; by rewrite ?stop_unassigned.
Qed.

Lemma release_unassigned_is_noop_witness :
  stop_session_container init "s1" = (false, init) ∧
  stop_session_container (stop_session_container init "s1").2 "s1" = (false, init).
Proof. apply release_unassigned_is_noop. reflexivity. Defined.

(** ** Further properties of the allocator *)

Lemma service_eta st :
  {| agent_pool := agent_pool st;
     available_agents := available_agents st;
     session_assignments := session_assignments st |} = st.
Proof. by destruct st. Qed.

Lemma pool_inv_reachable pool calls : pool_inv (run calls (new_service pool)).
Proof. apply pool_inv_run, pool_inv_new. Qed.

(** With no agent bound twice, there are as many bound agents as bound
    sessions. *)
Lemma size_map_img_injective (m : gmap string string) :
  (∀ s1 s2 a, m !! s1 = Some a → m !! s2 = Some a → s1 = s2) →
  size (map_img m : gset string) = size m.
Proof.
  induction m as [|i x m Hi IH] using map_ind; intros Hinj.
  { by rewrite map_img_empty_L, size_empty, map_size_empty. }
  rewrite map_img_insert_notin_L by done.
  rewrite map_size_insert_None by done.
  rewrite size_union.
  - rewrite size_singleton, IH; [done|].
    intros s1 s2 a H1 H2. apply (Hinj s1 s2 a).
    + rewrite lookup_insert_ne; [done|]. intros <-. congruence.
    + rewrite lookup_insert_ne; [done|]. intros <-. congruence.
  - intros y ->%elem_of_singleton [j Hj]%elem_of_map_img.
    assert (i = j) as <-; [|congruence].
    apply (Hinj i j x); [apply lookup_insert_eq|].
    rewrite lookup_insert_ne; [done|]. intros <-. congruence.
Qed.

Lemma release_keeps_agents st sid :
  available_agents (stop_session_container st sid).2
    ∪ assigned (stop_session_container st sid).2
  = available_agents st ∪ assigned st.
Proof.
  unfold stop_session_container, assigned.
  destruct (session_assignments st !! sid) as [a|] eqn:E; [|done]. simpl.
  apply set_eq. intros b.
  rewrite !elem_of_union, !elem_of_map_img, elem_of_singleton. split.
  - intros [[->|Hb]|[s [_ Hs]%lookup_delete_Some]]; eauto.
  - intros [Hb|[s Hs]]; [by eauto|].
    destruct (decide (s = sid)) as [->|Hne].
    + left; left. congruence.
    + right. exists s. by rewrite lookup_delete_ne.
Qed.

Lemma release_dom st sid :
  dom (session_assignments (stop_session_container st sid).2)
  = dom (session_assignments st) ∖ {[sid]}.
Proof.
  unfold stop_session_container.
  destruct (session_assignments st !! sid) as [a|] eqn:E; simpl.
  - by rewrite dom_delete_L.
  - apply not_elem_of_dom in E. set_solver.
Qed.

Lemma release_list st sids :
  available_agents (run (Release <$> sids) st) ∪ assigned (run (Release <$> sids) st)
    = available_agents st ∪ assigned st ∧
  dom (session_assignments (run (Release <$> sids) st))
    = dom (session_assignments st) ∖ list_to_set sids.
Proof.
  revert st. induction sids as [|sid sids IH]; intros st.
  { split; [done|]. simpl. set_solver. }
  change (run (Release <$> sid :: sids) st)
    with (run (Release <$> sids) (stop_session_container st sid).2).
  destruct (IH (stop_session_container st sid).2) as [-> ->].
  rewrite release_keeps_agents, release_dom. split; [done|]. set_solver.
Qed.

(** X1.  In any state reached by acquires and releases, an acquire for a
    session that holds no agent, made while an agent is available, is undone
    by the release that follows: the release returns true and the service is
    exactly as before the acquire. *)
Theorem acquire_then_release_restores pool calls pick sid :
  let st := run calls (new_service pool) in
  session_assignments st !! sid = None →
  available_agents st ≠ ∅ →
  is_returned (create_session_container pick st sid).1 = true ∧
  stop_session_container (create_session_container pick st sid).2 sid = (true, st).
Proof.
  intros st Hfree Hne.
  destruct (pool_inv_reachable pool calls) as [Hd Hw He]. fold st in Hd, Hw, He.
  destruct (create_success pick st sid Hne) as (a & info & Ha & Hinfo & ->);
    [set_solver|].
  split; [done|]. unfold stop_session_container. simpl.
  rewrite lookup_insert_eq. f_equal.
  rewrite <- (service_eta st) at 4. f_equal.
  - apply set_eq. intros b. rewrite elem_of_union, elem_of_difference,
      elem_of_singleton. split; [intros [->|[? _]]; done|].
    intros Hb. destruct (decide (b = a)); [by left|by right].
  - by rewrite delete_insert_id.
Qed.

Lemma acquire_then_release_restores_witness :
  stop_session_container (create_session_container 0 init "s1").2 "s1" = (true, init).
Proof.
  apply (acquire_then_release_restores default_pool [] 0 "s1").
  - vm_compute. reflexivity.
  - apply (bool_decide_eq_false_1 _). vm_compute. reflexivity.
Defined.

(** X2.  In any state reached by acquires and releases, releasing a session
    that holds agent [a] and acquiring for it again always succeeds: the
    release returns true, the acquire returns the connection info of an agent
    [b] that is [a] or was available, the session is bound to [b], and if no
    agent was lost before, none is lost after. *)
Theorem release_then_acquire_succeeds pool calls pick sid a :
  let st := run calls (new_service pool) in
  session_assignments st !! sid = Some a →
  let st1 := (stop_session_container st sid).2 in
  let r := create_session_container pick st1 sid in
  (stop_session_container st sid).1 = true ∧
  (∃ b info,
     (b = a ∨ b ∈ available_agents st) ∧
     agent_pool st !! b = Some info ∧
     r.1 = Returned (container_name info, vnc_port info) ∧
     session_assignments r.2 = <[sid := b]> (session_assignments st) ∧
     available_agents r.2 = ({[a]} ∪ available_agents st) ∖ {[b]}) ∧
  (partition st → partition r.2).
Proof.
  intros st Hsid st1 r.
  pose proof (pool_inv_reachable pool calls) as Hinv. fold st in Hinv.
  assert (pool_inv st1) as Hinv1 by by apply pool_inv_release.
  assert (st1 = {| agent_pool := agent_pool st;
                   available_agents := {[a]} ∪ available_agents st;
                   session_assignments := delete sid (session_assignments st) |})
    as Hst1.
  { unfold st1, stop_session_container. by rewrite Hsid. }
  split_and!.
  - unfold stop_session_container. by rewrite Hsid.
  - destruct (create_success pick st1 sid) as (b & info & Hb & Hinfo & Hr).
    { rewrite Hst1. simpl. set_solver. }
    { destruct Hinv1 as [_ Hw _]. set_solver. }
    exists b, info. unfold r. rewrite Hr. rewrite Hst1 in Hb, Hinfo |- *.
    simpl in *. split_and!; [set_solver|done|done| |done].
    apply insert_delete_eq.
  - intros Hp. apply partition_acquire_fresh; [done| |].
    + by apply partition_release.
    + rewrite Hst1. simpl. apply lookup_delete_eq.
Qed.

Lemma release_then_acquire_succeeds_witness :
  let st := run [Acquire 0 "s1"; Acquire 0 "s2"; Acquire 0 "s3"] init in
  (stop_session_container st "s1").1 = true ∧
  is_returned
    (create_session_container 0 (stop_session_container st "s1").2 "s1").1 = true.
Proof.
  destruct (release_then_acquire_succeeds default_pool
              [Acquire 0 "s1"; Acquire 0 "s2"; Acquire 0 "s3"] 0 "s1" "agent-3")
    as (H1 & (b & info & _ & _ & H2 & _) & _).
  - vm_compute. reflexivity.
  - split; [exact H1|]. unfold init. by rewrite H2.
Defined.

(** X3.  After any sequence of acquires and releases the number of available
    agents plus the number of bound sessions is at most the size of the pool,
    and it is exactly the size of the pool when every acquire was for a
    session holding no agent. *)
Theorem available_plus_bound_counts_pool pool calls :
  let st := run calls (new_service pool) in
  size (available_agents st) + size (session_assignments st) ≤ size pool ∧
  (fresh_acquires calls (new_service pool) = true →
   size (available_agents st) + size (session_assignments st) = size pool).
Proof.
  intros st.
  destruct (pool_inv_reachable pool calls) as [Hd Hw He]. fold st in Hd, Hw, He.
  assert (agent_pool st = pool) as Hpool by apply pool_fixed_run.
  assert (size (available_agents st) + size (session_assignments st)
          = size (available_agents st ∪ assigned st)) as ->.
  { rewrite size_union by done. unfold assigned.
    by rewrite size_map_img_injective. }
  assert (size pool = size (dom (agent_pool st))) as ->.
  { rewrite Hpool. symmetry. apply size_dom. }
  split.
  - by apply subseteq_size.
  - intros Hf. f_equal.
    apply partition_run; [apply pool_inv_new|apply partition_new|done].
Qed.

Lemma available_plus_bound_counts_pool_witness :
  let st := run [Acquire 0 "s1"; Acquire 1 "s2"; Release "s1"] init in
  size (available_agents st) + size (session_assignments st) = size default_pool.
Proof.
  apply (available_plus_bound_counts_pool default_pool
           [Acquire 0 "s1"; Acquire 1 "s2"; Release "s1"]).
  vm_compute. reflexivity.
Defined.

(** X4.  Whenever an acquire returns, in whatever state, the container name
    and port it returns are those of one agent of the pool that was
    available before the call; after the call that agent is bound to the
    session and is no longer available, and the binding of every other
    session is what it was. *)
Theorem acquire_returns_bound_agent pick st sid name port :
  (create_session_container pick st sid).1 = Returned (name, port) →
  ∃ a info,
    a ∈ available_agents st ∧
    agent_pool st !! a = Some info ∧
    name = container_name info ∧ port = vnc_port info ∧
    session_assignments (create_session_container pick st sid).2 !! sid = Some a ∧
    (a ∉ available_agents (create_session_container pick st sid).2) ∧
    ∀ sid', sid' ≠ sid →
      session_assignments (create_session_container pick st sid).2 !! sid'
      = session_assignments st !! sid'.
Proof.
  unfold create_session_container. case_decide; [done|].
  destruct (set_pop _ _) as [[a rest]|] eqn:Hpop; [|done].
  apply set_pop_spec in Hpop as [Ha ->].
  destruct (agent_pool st !! a) as [info|] eqn:Hinfo; [|done].
  simpl. intros [= <- <-]. exists a, info.
  split_and!; [done..|apply lookup_insert_eq|set_solver|].
  intros sid' Hne. by rewrite lookup_insert_ne.
Qed.

Lemma acquire_returns_bound_agent_witness :
  ∃ a info,
    a ∈ available_agents init ∧ agent_pool init !! a = Some info ∧
    "scalable-backend-agent-3-1" = container_name info ∧
    session_assignments (create_session_container 0 init "s1").2 !! "s1" = Some a.
Proof.
  destruct (acquire_returns_bound_agent 0 init "s1"
              "scalable-backend-agent-3-1" 5902%Z)
    as (a & info & H1 & H2 & H3 & _ & H5 & _).
  - vm_compute. reflexivity.
  - exists a, info. split_and!; [exact H1|exact H2|exact H3|exact H5].
Defined.

(** A release never changes the binding of another session, and after it
    the released session holds nothing. *)
Lemma release_touches_one_session st sid :
  session_assignments (stop_session_container st sid).2 !! sid = None ∧
  ∀ sid', sid' ≠ sid →
    session_assignments (stop_session_container st sid).2 !! sid'
    = session_assignments st !! sid'.
Proof.
  unfold stop_session_container.
  destruct (session_assignments st !! sid) as [a|] eqn:E; simpl.
  - split; [apply lookup_delete_eq|]. intros sid' Hne. by rewrite lookup_delete_ne.
  - done.
Qed.

(** X5.  When the pool is exhausted and a session holding agent [a]
    releases, the next acquire, for whatever session, is given exactly [a],
    and the pool is exhausted again. *)
Theorem released_agent_is_handed_out pool calls pick s1 s3 a :
  let st := run calls (new_service pool) in
  available_agents st = ∅ →
  session_assignments st !! s1 = Some a →
  ∃ info,
    agent_pool st !! a = Some info ∧
    create_session_container pick (stop_session_container st s1).2 s3 =
      (Returned (container_name info, vnc_port info),
       {| agent_pool := agent_pool st;
          available_agents := ∅;
          session_assignments :=
            <[s3 := a]> (delete s1 (session_assignments st)) |}).
Proof.
  intros st Hemp Hs1.
  pose proof (pool_inv_reachable pool calls) as Hinv. fold st in Hinv.
  pose proof (pool_inv_release st s1 Hinv) as [_ Hw1 _].
  unfold stop_session_container in *. rewrite Hs1 in *. simpl in *.
  rewrite Hemp in *.
  destruct (create_success pick
              {| agent_pool := agent_pool st;
                 available_agents := {[a]} ∪ ∅;
                 session_assignments := delete s1 (session_assignments st) |} s3)
    as (b & info & Hb & Hinfo & Hr); simpl in *; [set_solver|set_solver|].
  assert (b = a) as -> by set_solver.
  exists info. split; [done|]. rewrite Hr. do 2 f_equal. set_solver.
Qed.

Lemma released_agent_is_handed_out_witness :
  let st := run [Acquire 0 "s1"; Acquire 0 "s2"; Acquire 0 "s3"] init in
  (create_session_container 0 (stop_session_container st "s2").2 "s4").1
  = Returned ("scalable-backend-agent-1-1", 5900%Z).
Proof.
  destruct (released_agent_is_handed_out default_pool
              [Acquire 0 "s1"; Acquire 0 "s2"; Acquire 0 "s3"] 0 "s2" "s4" "agent-1")
    as (info & Hinfo & Hr).
  - vm_compute. reflexivity.
  - vm_compute. reflexivity.
  - unfold init. rewrite Hr. simpl.
    assert (Some info = Some (AgentInfo 5900 6900 "scalable-backend-agent-1-1")) as E.
    { rewrite <- Hinfo. vm_compute. reflexivity. }
    by injection E as ->.
Defined.

(** X6.  Releasing every session that holds an agent, in any order and with
    any other session ids among them, leaves no binding and makes available
    every agent that was available or bound; when no agent was lost before,
    the whole pool is available again. *)
Theorem releasing_all_refills_pool pool calls sids :
  let st := run calls (new_service pool) in
  dom (session_assignments st) ⊆ list_to_set sids →
  let st' := run (Release <$> sids) st in
  session_assignments st' = ∅ ∧
  available_agents st' = available_agents st ∪ assigned st ∧
  (fresh_acquires calls (new_service pool) = true →
   available_agents st' = dom pool).
Proof.
  intros st Hsub st'.
  destruct (release_list st sids) as [Hu Hdom]. fold st' in Hu, Hdom.
  assert (session_assignments st' = ∅) as Hemp.
  { apply dom_empty_iff_L. rewrite Hdom. set_solver. }
  assert (available_agents st' = available_agents st ∪ assigned st) as Hav.
  { rewrite <- Hu. unfold assigned at 1. rewrite Hemp, map_img_empty_L. set_solver. }
  split_and!; [done..|].
  intros Hf. rewrite Hav.
  assert (agent_pool st = pool) as Hpool by apply pool_fixed_run.
  rewrite <- Hpool.
  apply partition_run; [apply pool_inv_new|apply partition_new|done].
Qed.

Lemma releasing_all_refills_pool_witness :
  let st := run [Acquire 0 "s1"; Acquire 0 "s2"] init in
  available_agents (run (Release <$> ["s2"; "s9"; "s1"]) st) = dom default_pool.
Proof.
  destruct (releasing_all_refills_pool default_pool
              [Acquire 0 "s1"; Acquire 0 "s2"] ["s2"; "s9"; "s1"]) as (_ & _ & H).
  - apply (bool_decide_unpack _). vm_compute. exact I.
  - apply H. vm_compute. reflexivity.
Defined.

End AllocatorFacts.

(* ===================================================================== *)
(** * Facts about AgentWebSocketManager *)
(* ===================================================================== *)

Module HubFacts.
Import Hub.
Local Open Scope hub_scope.

(** ** Sends and broadcasts, step by step *)

Lemma send_to_websocket_open env ws msg s :
  link env ws = LinkOpen →
  send_to_websocket env ws msg s =
    (Ok tt, {| mgr := mgr s; sent := sent s ++ [(ws, msg)]; db := db s;
               ticks := ticks s; uuids := uuids s; commits := commits s |}).
Proof.
  intros H. unfold send_to_websocket, try_except, send_text. by rewrite H.
Qed.

Lemma send_to_websocket_fail env ws msg s :
  link env ws ≠ LinkOpen →
  send_to_websocket env ws msg s =
    (Ok tt, with_mgr (disconnect_mgr ws (mgr s)) s).
Proof.
  intros H. unfold send_to_websocket, try_except, send_text.
  destruct (link env ws) eqn:E; [done|..]; simpl; by rewrite ?E.
Qed.

Lemma send_ok_open env ws : send_ok env ws = true ↔ link env ws = LinkOpen.
Proof. unfold send_ok. by destruct (link env ws). Qed.

Lemma deliver_ok env msg s ws :
  send_ok env ws = true →
  deliver env msg s ws =
    {| mgr := mgr s; sent := sent s ++ [(ws, msg)]; db := db s;
       ticks := ticks s; uuids := uuids s; commits := commits s |}.
Proof.
  intros H%send_ok_open. unfold deliver. by rewrite send_to_websocket_open.
Qed.

Lemma deliver_fail env msg s ws :
  send_ok env ws = false →
  deliver env msg s ws = with_mgr (disconnect_mgr ws (mgr s)) s.
Proof.
  intros H. unfold deliver. rewrite send_to_websocket_fail; [done|].
  intros E%send_ok_open. congruence.
Qed.

Lemma send_to_websocket_returns env ws msg s :
  send_to_websocket env ws msg s = (Ok tt, deliver env msg s ws).
Proof.
  unfold deliver. destruct (send_ok env ws) eqn:E.
  - apply send_ok_open in E. by rewrite send_to_websocket_open.
  - rewrite send_to_websocket_fail; [done|]. intros H%send_ok_open. congruence.
Qed.

Lemma for_each_send env msg l s :
  for_each l (λ ws, send_to_websocket env ws msg) s =
    (Ok tt, foldl (deliver env msg) s l).
Proof.
  revert s. induction l as [|w l IH]; intros s; [done|].
  simpl. unfold bind. rewrite send_to_websocket_returns. apply IH.
Qed.

Lemma broadcast_eq env sid msg s :
  broadcast_to_session env sid msg s =
    (Ok tt, foldl (deliver env msg) s (elements (observers (mgr s) sid))).
Proof.
  unfold broadcast_to_session, bind, get_mgr, observers.
  destruct (active_connections (mgr s) !! sid) as [conns|]; simpl.
  - apply for_each_send.
  - by rewrite elements_empty.
Qed.

Lemma foldl_deliver_sent env msg l s :
  sent (foldl (deliver env msg) s l) =
    sent s ++ ((λ w, (w, msg)) <$> filter (λ w, send_ok env w) l).
Proof.
  revert s. induction l as [|w l IH]; intros s; simpl.
  { by rewrite app_nil_r. }
  rewrite IH, filter_cons. destruct (send_ok env w) eqn:E.
  - rewrite deliver_ok by done. rewrite decide_True by exact I.
    simpl. by rewrite <- app_assoc.
  - rewrite deliver_fail by done. by rewrite decide_False by (intros []).
Qed.

Lemma foldl_deliver_mgr env msg l s :
  mgr (foldl (deliver env msg) s l) = foldl (drop_failed env) (mgr s) l.
Proof.
  revert s. induction l as [|w l IH]; intros s; simpl; [done|].
  rewrite IH. f_equal. unfold drop_failed. destruct (send_ok env w) eqn:E.
  - by rewrite deliver_ok.
  - by rewrite deliver_fail.
Qed.

Lemma foldl_deliver_rest env msg l s :
  db (foldl (deliver env msg) s l) = db s ∧
  ticks (foldl (deliver env msg) s l) = ticks s ∧
  uuids (foldl (deliver env msg) s l) = uuids s ∧
  commits (foldl (deliver env msg) s l) = commits s.
Proof.
  revert s. induction l as [|w l IH]; intros s; simpl; [done|].
  destruct (IH (deliver env msg s w)) as (-> & -> & -> & ->).
  destruct (send_ok env w) eqn:E.
  - by rewrite deliver_ok.
  - by rewrite deliver_fail.
Qed.

(** ** The two dicts stay consistent *)

Lemma hub_consistent_new : hub_consistent new_manager.
Proof.
  split; simpl.
  - intros ws sid. split.
    + intros (md & H & _). by rewrite lookup_empty in H.
    + intros (c & H & _). by rewrite lookup_empty in H.
  - intros sid c H. by rewrite lookup_empty in H.
Qed.

Lemma disconnect_mgr_unregistered ws m :
  connection_metadata m !! ws = None → disconnect_mgr ws m = m.
Proof. intros H. unfold disconnect_mgr. by rewrite H. Qed.

Lemma disconnect_mgr_metadata ws m :
  connection_metadata (disconnect_mgr ws m) !! ws = None.
Proof.
  unfold disconnect_mgr.
  destruct (connection_metadata m !! ws) eqn:E; [|done].
  simpl. apply lookup_delete_eq.
Qed.

Lemma disconnect_mgr_idem ws m :
  disconnect_mgr ws (disconnect_mgr ws m) = disconnect_mgr ws m.
Proof. apply disconnect_mgr_unregistered, disconnect_mgr_metadata. Qed.

(** In a consistent manager, [disconnect] of a member of the set under [sid]
    leaves exactly the other members there. *)
Lemma disconnect_mgr_observers ws sid conns m :
  hub_consistent m →
  active_connections m !! sid = Some conns → ws ∈ conns →
  observers (disconnect_mgr ws m) sid = conns ∖ {[ws]}.
Proof.
  intros [Hc _] Hsid Hin.
  destruct (proj2 (Hc ws sid)) as (md & Hmd & Hs); [by eauto|].
  unfold disconnect_mgr, observers. rewrite Hmd, Hs, Hsid. simpl.
  case_decide as Hemp.
  - rewrite lookup_delete_eq. simpl. by rewrite Hemp.
  - by rewrite lookup_insert_eq.
Qed.

Lemma disconnect_mgr_consistent ws m :
  hub_consistent m → hub_consistent (disconnect_mgr ws m).
Proof.
  intros [Hc Hne]. unfold disconnect_mgr.
  destruct (connection_metadata m !! ws) as [md|] eqn:Hmd; [|by split].
  destruct (proj1 (Hc ws (session_id md))) as (conns & Hconns & Hin); [by eauto|].
  rewrite Hconns. set (sid0 := session_id md) in *.
  split; simpl.
  - intros w sid. split.
    + intros (md' & [Hw Hmd']%lookup_delete_Some & Hs).
      destruct (proj1 (Hc w sid)) as (c & Hcs & Hwc); [by eauto|].
      destruct (decide (sid = sid0)) as [->|Hsid].
      * assert (c = conns) as -> by congruence.
        assert (conns ∖ {[ws]} ≠ ∅) as Hnemp by set_solver.
        rewrite decide_False by done.
        exists (conns ∖ {[ws]}). rewrite lookup_insert_eq. split; [done|set_solver].
      * exists c. split; [|done].
        case_decide; [by rewrite lookup_delete_ne|by rewrite lookup_insert_ne].
    + intros (c & Hcs & Hwc).
      destruct (decide (sid = sid0)) as [->|Hsid].
      * case_decide as Hemp.
        { by rewrite lookup_delete_eq in Hcs. }
        rewrite lookup_insert_eq in Hcs. injection Hcs as <-.
        destruct (proj2 (Hc w sid0)) as (md' & Hmd' & Hs); [exists conns; set_solver|].
        exists md'. split; [|done].
        rewrite lookup_delete_ne; [done|set_solver].
      * assert (active_connections m !! sid = Some c) as Hcs'.
        { case_decide; [by rewrite lookup_delete_ne in Hcs
                       |by rewrite lookup_insert_ne in Hcs]. }
        destruct (proj2 (Hc w sid)) as (md' & Hmd' & Hs); [by eauto|].
        exists md'. split; [|done].
        rewrite lookup_delete_ne; [done|]. intros <-.
        apply Hsid. unfold sid0. congruence.
  - intros sid c Hcs. case_decide as Hemp.
    + apply lookup_delete_Some in Hcs as [_ Hcs]. eauto.
    + destruct (decide (sid = sid0)) as [->|Hsid].
      * rewrite lookup_insert_eq in Hcs. by injection Hcs as <-.
      * rewrite lookup_insert_ne in Hcs by done. eauto.
Qed.

(** The registration done by [connect], before the welcome message. *)
Lemma register_consistent ws sid uid t m :
  hub_consistent m →
  connection_metadata m !! ws = None →
  hub_consistent
    {| active_connections :=
         <[sid := {[ws]} ∪ default ∅ (active_connections m !! sid)]>
           (active_connections m);
       connection_metadata :=
         <[ws := Metadata sid uid t]> (connection_metadata m) |}.
Proof.
  intros [Hc Hne] Hfresh. split; simpl.
  - intros w sid'. split.
    + intros (md & Hmd & Hs).
      destruct (decide (w = ws)) as [->|Hw].
      * rewrite lookup_insert_eq in Hmd. injection Hmd as <-. simpl in Hs. subst sid'.
        eexists. rewrite lookup_insert_eq. split; [done|set_solver].
      * rewrite lookup_insert_ne in Hmd by done.
        destruct (proj1 (Hc w sid')) as (c & Hcs & Hwc); [by eauto|].
        destruct (decide (sid' = sid)) as [->|Hsid].
        -- eexists. rewrite lookup_insert_eq. split; [done|].
           rewrite Hcs. simpl. set_solver.
        -- exists c. by rewrite lookup_insert_ne.
    + intros (c & Hcs & Hwc).
      destruct (decide (w = ws)) as [->|Hw].
      * destruct (decide (sid' = sid)) as [->|Hsid].
        -- eexists. rewrite lookup_insert_eq. done.
        -- rewrite lookup_insert_ne in Hcs by done.
           destruct (proj2 (Hc ws sid')) as (md & Hmd & _); [by eauto|]. congruence.
      * assert (∃ c0, active_connections m !! sid' = Some c0 ∧ w ∈ c0) as Hold.
        { destruct (decide (sid' = sid)) as [->|Hsid].
          - rewrite lookup_insert_eq in Hcs. injection Hcs as <-.
            destruct (active_connections m !! sid) as [c0|]; simpl in Hwc.
            + exists c0. split; [done|set_solver].
            + set_solver.
          - rewrite lookup_insert_ne in Hcs by done. eauto. }
        destruct (proj2 (Hc w sid') Hold) as (md & Hmd & Hs).
        exists md. by rewrite lookup_insert_ne.
  - intros sid' c Hcs.
    destruct (decide (sid' = sid)) as [->|Hsid].
    + rewrite lookup_insert_eq in Hcs. injection Hcs as <-. set_solver.
    + rewrite lookup_insert_ne in Hcs by done. eauto.
Qed.

(** ** Relations that every call respects *)

Section respects.
Context (R : State → State → Prop).
Hypothesis R_refl : ∀ s, R s s.
Hypothesis R_trans : ∀ s1 s2 s3, R s1 s2 → R s2 s3 → R s1 s3.

Lemma respects_ret {A} (a : A) : respects R (ret a).
Proof using R_refl. intros s. apply R_refl. Qed.

Lemma respects_raise {A} e : respects R (raise (A:=A) e).
Proof using R_refl. intros s. apply R_refl. Qed.

Lemma respects_get_mgr : respects R get_mgr.
Proof using R_refl. intros s. apply R_refl. Qed.

Lemma respects_db_get sid : respects R (db_get_session sid).
Proof using R_refl. intros s. apply R_refl. Qed.

Lemma respects_bind {A B} (c : M A) (k : A → M B) :
  respects R c → (∀ a, respects R (k a)) → respects R (bind c k).
Proof using R_trans.
  intros Hc Hk s. unfold bind. specialize (Hc s).
  destruct (c s) as [[a|e] s']; simpl in *; [|done].
  eapply R_trans; [exact Hc | apply Hk].
Qed.

Lemma respects_try_except {A} (c : M A) h :
  respects R c → (∀ e, respects R (h e)) → respects R (try_except c h).
Proof using R_trans.
  intros Hc Hh s. unfold try_except. specialize (Hc s).
  destruct (c s) as [[a|e] s']; simpl in *; [done|].
  eapply R_trans; [exact Hc | apply Hh].
Qed.

Lemma respects_try_finally {A} (c : M A) f :
  respects R c → respects R f → respects R (try_finally c f).
Proof using R_trans.
  intros Hc Hf s. unfold try_finally. specialize (Hc s).
  destruct (c s) as [r s']. specialize (Hf s').
  destruct (f s') as [[[]|e] s'']; simpl in *; by eapply R_trans.
Qed.

Lemma respects_for_each {A} (l : list A) body :
  (∀ x, respects R (body x)) → respects R (for_each l body).
Proof using R_refl R_trans.
  intros Hb. induction l as [|x l IH]; simpl.
  - apply respects_ret.
  - by apply respects_bind.
Qed.

Hypothesis R_utcnow : ∀ env, respects R (utcnow env).
Hypothesis R_send_text : ∀ env ws msg, respects R (send_text env ws msg).
Hypothesis R_commit : ∀ env row touch, respects R (db_commit env row touch).
Hypothesis R_disconnect : ∀ ws, respects R (disconnect ws).

Lemma respects_send_to_websocket env ws msg :
  respects R (send_to_websocket env ws msg).
Proof using R_trans R_send_text R_disconnect.
  unfold send_to_websocket. apply respects_try_except; [|done].
  by case_decide.
Qed.

Lemma respects_broadcast env sid msg :
  respects R (broadcast_to_session env sid msg).
Proof using R_refl R_trans R_send_text R_disconnect.
  unfold broadcast_to_session.
  apply respects_bind; [apply respects_get_mgr|]. intros m.
  destruct (active_connections m !! sid); [|apply respects_ret].
  apply respects_for_each. intros w. apply respects_send_to_websocket.
Qed.

Lemma respects_simulate env sid v :
  respects R (_simulate_agent_response env sid v).
Proof using R_refl R_trans R_utcnow R_send_text R_commit R_disconnect.
  unfold _simulate_agent_response.
  do 3 (apply respects_bind; [done|intros ?]).
  apply respects_broadcast.
Qed.

Lemma respects_handle_user_message env sid d :
  respects R (handle_user_message env sid d).
Proof using R_refl R_trans R_utcnow R_send_text R_commit R_disconnect.
  unfold handle_user_message. apply respects_try_except.
  - apply respects_bind; [apply respects_db_get|]. intros [t0|]; [|apply respects_raise].
    do 4 (apply respects_bind; [done|intros ?]).
    apply respects_bind; [apply respects_broadcast|]. intros _.
    apply respects_simulate.
  - intros e. apply respects_bind; [done|]. intros t. apply respects_broadcast.
Qed.

Lemma respects_receive_step env ws sid f :
  respects R (receive_step env ws sid f).
Proof using R_refl R_trans R_utcnow R_send_text R_commit R_disconnect.
  unfold receive_step. apply respects_try_except.
  - apply respects_bind.
    { destruct f; [apply respects_raise..|apply respects_ret]. }
    intros [| | | | |d]; try apply respects_raise.
    destruct (eq_str _ "message").
    { apply respects_bind; [apply respects_handle_user_message|].
      intros _. apply respects_ret. }
    destruct (eq_str _ "ping"); [|apply respects_ret].
    apply respects_bind; [done|]. intros t.
    apply respects_bind; [apply respects_send_to_websocket|].
    intros _. apply respects_ret.
  - assert (∀ msg, respects R
        (try_except
           (t <- utcnow env ;; send_to_websocket env ws (error_event msg t) ;;
            ret Continue)
           (λ _, ret Break))) as Hgen.
    { intros msg. apply respects_try_except; [|intros; apply respects_ret].
      apply respects_bind; [done|]. intros t.
      apply respects_bind; [apply respects_send_to_websocket|].
      intros _. apply respects_ret. }
    intros []; try apply Hgen.
    + apply respects_bind; [done|]. intros t.
      apply respects_bind; [apply respects_send_to_websocket|].
      intros _. apply respects_ret.
    + apply respects_ret.
Qed.

End respects.

(** ** Instances: the log grows, consistency is kept *)

Lemma sent_extends_refl s : sent_extends s s.
Proof. exists []. by rewrite app_nil_r. Qed.

Lemma sent_extends_trans s1 s2 s3 :
  sent_extends s1 s2 → sent_extends s2 s3 → sent_extends s1 s3.
Proof. intros [l1 H1] [l2 H2]. exists (l1 ++ l2). by rewrite H2, H1, app_assoc. Qed.

Lemma sent_extends_same s s' : sent s' = sent s → sent_extends s s'.
Proof. intros H. exists []. by rewrite app_nil_r. Qed.

Lemma sent_extends_utcnow env : respects sent_extends (utcnow env).
Proof. intros s. by apply sent_extends_same. Qed.

Lemma sent_extends_send_text env ws msg : respects sent_extends (send_text env ws msg).
Proof.
  intros s. unfold send_text. destruct (link env ws); simpl;
    [by eexists | by apply sent_extends_same..].
Qed.

Lemma sent_extends_commit env row touch : respects sent_extends (db_commit env row touch).
Proof.
  intros s. unfold db_commit. destruct (commit_fails env _); by apply sent_extends_same.
Qed.

Lemma sent_extends_disconnect ws : respects sent_extends (disconnect ws).
Proof. intros s. by apply sent_extends_same. Qed.

Lemma keeps_refl P s : keeps P s s.
Proof. by intros H. Qed.

Lemma keeps_trans P s1 s2 s3 : keeps P s1 s2 → keeps P s2 s3 → keeps P s1 s3.
Proof. unfold keeps. auto. Qed.

Lemma keeps_utcnow P env : respects (keeps P) (utcnow env).
Proof. by intros s H. Qed.

Lemma keeps_send_text P env ws msg : respects (keeps P) (send_text env ws msg).
Proof. intros s H. unfold send_text. by destruct (link env ws). Qed.

Lemma keeps_commit P env row touch : respects (keeps P) (db_commit env row touch).
Proof. intros s H. unfold db_commit. by destruct (commit_fails env _). Qed.

Lemma keeps_consistent_disconnect ws : respects (keeps hub_consistent) (disconnect ws).
Proof. intros s H. simpl. by apply disconnect_mgr_consistent. Qed.

Lemma connect_eq env ws sid uid s :
  connect env ws sid uid s =
    send_to_websocket env ws
      [("type", VStr "connection"); ("status", VStr "connected");
       ("session_id", VStr sid);
       ("timestamp", VStr (isoformat (clock env (S (ticks s)))))]
      {| mgr := {| active_connections :=
                     <[sid := {[ws]} ∪ default ∅ (active_connections (mgr s) !! sid)]>
                       (active_connections (mgr s));
                   connection_metadata :=
                     <[ws := Metadata sid uid (clock env (ticks s))]>
                       (connection_metadata (mgr s)) |};
         sent := sent s; db := db s;
         ticks := S (S (ticks s)); uuids := uuids s; commits := commits s |}.
Proof. reflexivity. Qed.

Lemma connect_consistent env ws sid uid s :
  hub_consistent (mgr s) →
  connection_metadata (mgr s) !! ws = None →
  hub_consistent (mgr (connect env ws sid uid s).2).
Proof.
  intros Hc Hfresh. rewrite connect_eq.
  apply (respects_send_to_websocket (keeps hub_consistent));
    [apply keeps_trans|apply keeps_send_text|apply keeps_consistent_disconnect|].
  simpl. by apply register_consistent.
Qed.

Lemma hub_step_consistent s c :
  hub_consistent (mgr s) →
  match c.2 with
  | OpConnect ws _ _ => connection_metadata (mgr s) !! ws = None
  | _ => True
  end →
  hub_consistent (mgr (hub_step s c)).
Proof.
  intros Hc Hfresh. destruct c as [env op]. unfold hub_step. simpl in *.
  pose proof (keeps_refl hub_consistent) as Hr.
  pose proof (keeps_trans hub_consistent) as Ht.
  destruct op as [ws sid uid|ws|ws msg|sid msg|ws sid f]; simpl.
  - by apply connect_consistent.
  - by apply disconnect_mgr_consistent.
  - apply (respects_send_to_websocket (keeps hub_consistent));
      auto using keeps_send_text, keeps_consistent_disconnect.
  - apply (respects_broadcast (keeps hub_consistent));
      auto using keeps_send_text, keeps_consistent_disconnect.
  - assert (respects (keeps hub_consistent) (receive_step env ws sid f)) as Hstep.
    { apply respects_receive_step;
        auto using keeps_utcnow, keeps_send_text, keeps_commit,
                   keeps_consistent_disconnect. }
    apply (respects_bind (keeps hub_consistent)); [done|done| |done].
    intros _. by apply respects_ret.
Qed.

Lemma hub_run_consistent trace s :
  hub_consistent (mgr s) →
  connects_once trace s = true →
  hub_consistent (mgr (hub_run trace s)).
Proof.
  revert s. induction trace as [|c trace IH]; intros s Hc Hf; [done|].
  simpl in Hf. apply andb_prop in Hf as [Hop Hf].
  apply IH; [|done]. apply hub_step_consistent; [done|].
  destruct (c.2); try done. by apply bool_decide_eq_true in Hop.
Qed.

Lemma two_observers_consistent : hub_consistent (mgr two_observers).
Proof. apply hub_run_consistent; [apply hub_consistent_new | by vm_compute]. Qed.

(** ** One failing observer in a broadcast *)

Lemma filter_ext_in {A} (P Q : A → Prop) `{!∀ x, Decision (P x)}
    `{!∀ x, Decision (Q x)} (l : list A) :
  (∀ x, x ∈ l → P x ↔ Q x) → filter P l = filter Q l.
Proof.
  induction l as [|x l IH]; intros Hext; [done|].
  rewrite !filter_cons.
  assert (filter P l = filter Q l) as ->.
  { apply IH. intros y Hy. apply Hext. by right. }
  assert (P x ↔ Q x) as Hx by (apply Hext; by left).
  repeat case_decide; naive_solver.
Qed.

Section one_failure.
Context (env : Env) (bad : WebSocket).

Lemma foldl_failed_again l m :
  (∀ w, w ∈ l → send_ok env w = false → w = bad) →
  foldl (drop_failed env) (disconnect_mgr bad m) l = disconnect_mgr bad m.
Proof.
  induction l as [|w l IH]; intros H; [done|]. simpl.
  assert (drop_failed env (disconnect_mgr bad m) w = disconnect_mgr bad m) as ->.
  { unfold drop_failed. destruct (send_ok env w) eqn:E; [done|].
    rewrite (H w) by (done || by left). apply disconnect_mgr_idem. }
  apply IH. intros w' Hw'. apply H. by right.
Qed.

Lemma foldl_failed_once l m :
  (∀ w, w ∈ l → send_ok env w = false → w = bad) →
  bad ∈ l → send_ok env bad = false →
  foldl (drop_failed env) m l = disconnect_mgr bad m.
Proof.
  revert m. induction l as [|w l IH]; intros m H Hin Hbad.
  { by apply elem_of_nil in Hin. }
  simpl. unfold drop_failed at 2. destruct (send_ok env w) eqn:E.
  - apply IH; [intros w' Hw'; apply H; by right| |done].
    apply elem_of_cons in Hin as [->|Hin]; [congruence|done].
  - rewrite (H w) by (done || by left).
    apply foldl_failed_again. intros w' Hw'. apply H. by right.
Qed.

End one_failure.

(** C9.  Starting from the empty manager, after any sequence of connect,
    disconnect, send (with the removal that a failed send triggers),
    broadcast and receive steps in which every connect is for a WebSocket that
    is not registered at that moment, a WebSocket has a metadata entry naming
    session [sid] exactly when it is a member of the set stored under [sid],
    and no session key is mapped to the empty set. *)
Theorem hub_maps_stay_consistent d trace :
  connects_once trace (initial_state d) = true →
  let m := mgr (hub_run trace (initial_state d)) in
  (∀ ws sid,
     (∃ md, connection_metadata m !! ws = Some md ∧ session_id md = sid) ↔
     (∃ conns, active_connections m !! sid = Some conns ∧ ws ∈ conns)) ∧
  (∀ sid conns, active_connections m !! sid = Some conns → conns ≠ ∅).
Proof.
  intros Hf. apply (hub_run_consistent trace (initial_state d)); [|done].
  apply hub_consistent_new.
Qed.

Lemma hub_maps_stay_consistent_witness :
  let m := mgr (hub_run [(example_env [] [], OpConnect 1 "s1" None);
                         (example_env [2] [], OpConnect 2 "s1" None);
                         (example_env [] [], OpConnect 2 "s2" None);
                         (example_env [3] [], OpBroadcast "s1" []);
                         (example_env [] [], OpDisconnect 3)]
                        (initial_state example_db)) in
  (∃ md, connection_metadata m !! 2 = Some md ∧ session_id md = "s2") ↔
  (∃ conns, active_connections m !! "s2" = Some conns ∧ 2 ∈ conns).
Proof.
  intros m.
  apply (hub_maps_stay_consistent example_db
           [(example_env [] [], OpConnect 1 "s1" None);
            (example_env [2] [], OpConnect 2 "s1" None);
            (example_env [] [], OpConnect 2 "s2" None);
            (example_env [3] [], OpBroadcast "s1" []);
            (example_env [] [], OpDisconnect 3)]).
  vm_compute. reflexivity.
Defined.

(** C3.  In a consistent manager, a broadcast to a session whose observers
    all take the event except one, [bad], does not raise; every other
    observer gets the event (once, in the iteration order of the set);
    afterwards the observers of the session are the former ones without
    [bad], and [bad] has no metadata entry. *)
Theorem broadcast_isolates_failure env sid msg s conns bad :
  hub_consistent (mgr s) →
  active_connections (mgr s) !! sid = Some conns →
  bad ∈ conns →
  send_ok env bad = false →
  (∀ w, w ∈ conns → w ≠ bad → send_ok env w = true) →
  let r := broadcast_to_session env sid msg s in
  r.1 = Ok tt ∧
  delivered_since (length (sent s)) r.2 =
    (λ w, (w, msg)) <$> filter (λ w, w ≠ bad) (elements conns) ∧
  (∀ w, w ∈ conns → w ≠ bad → (w, msg) ∈ delivered_since (length (sent s)) r.2) ∧
  observers (mgr r.2) sid = conns ∖ {[bad]} ∧
  (bad ∉ observers (mgr r.2) sid) ∧
  connection_metadata (mgr r.2) !! bad = None.
Proof.
  intros Hc Hsid Hbad Hfail Hothers r.
  assert (r = (Ok tt, foldl (deliver env msg) s (elements conns))) as Hr.
  { unfold r. rewrite broadcast_eq. unfold observers. by rewrite Hsid. }
  assert (delivered_since (length (sent s)) r.2 =
            (λ w, (w, msg)) <$> filter (λ w, w ≠ bad) (elements conns)) as Hsent.
  { rewrite Hr. unfold delivered_since. simpl.
    rewrite foldl_deliver_sent, drop_app_length. f_equal.
    apply filter_ext_in. intros w Hw%elem_of_elements.
    destruct (decide (w = bad)) as [->|Hne].
    - rewrite Hfail. naive_solver.
    - rewrite Hothers by done. naive_solver. }
  assert (mgr r.2 = disconnect_mgr bad (mgr s)) as Hmgr.
  { rewrite Hr. simpl. rewrite foldl_deliver_mgr.
    apply foldl_failed_once; [|by apply elem_of_elements|done].
    intros w Hw%elem_of_elements Hw'.
    destruct (decide (w = bad)) as [|Hne]; [done|].
    rewrite Hothers in Hw' by done. discriminate. }
  assert (observers (mgr r.2) sid = conns ∖ {[bad]}) as Hobs.
  { rewrite Hmgr. by apply disconnect_mgr_observers. }
  split_and!.
  - by rewrite Hr.
  - done.
  - intros w Hw Hne. rewrite Hsent. apply list_elem_of_fmap. exists w.
    split; [done|]. apply list_elem_of_filter. split; [done|].
    by apply elem_of_elements.
  - done.
  - rewrite Hobs. set_solver.
  - rewrite Hmgr. apply disconnect_mgr_metadata.
Qed.

Lemma broadcast_isolates_failure_witness :
  let r := broadcast_to_session (example_env [2] []) "s1"
             [("type", VStr "session_ended")] two_observers in
  r.1 = Ok tt ∧
  (1, [("type", VStr "session_ended")])
    ∈ delivered_since (length (sent two_observers)) r.2 ∧
  (2 ∉ observers (mgr r.2) "s1") ∧
  connection_metadata (mgr r.2) !! 2 = None.
Proof.
  destruct (broadcast_isolates_failure (example_env [2] []) "s1"
              [("type", VStr "session_ended")] two_observers {[1; 2]} 2)
    as (H1 & _ & H3 & _ & H5 & H6).
  - apply two_observers_consistent.
  - by vm_compute.
  - set_solver.
  - by vm_compute.
  - intros w Hw Hne. assert (w = 1) as -> by set_solver. by vm_compute.
  - split_and!; [exact H1| |exact H5|exact H6].
    apply (H3 1); [set_solver|done].
Defined.

(** ** Handling an inbound message *)

Lemma sent_extends_broadcast env sid msg :
  respects sent_extends (broadcast_to_session env sid msg).
Proof.
  exact (respects_broadcast sent_extends sent_extends_refl sent_extends_trans
           sent_extends_send_text sent_extends_disconnect env sid msg).
Qed.

Lemma sent_extends_simulate env sid v :
  respects sent_extends (_simulate_agent_response env sid v).
Proof.
  exact (respects_simulate sent_extends sent_extends_refl sent_extends_trans
           sent_extends_utcnow sent_extends_send_text sent_extends_commit
           sent_extends_disconnect env sid v).
Qed.

Lemma broadcast_sent env sid msg s :
  sent (broadcast_to_session env sid msg s).2 =
    sent s ++ ((λ w, (w, msg)) <$>
               filter (λ w, send_ok env w) (elements (observers (mgr s) sid))).
Proof. rewrite broadcast_eq. simpl. apply foldl_deliver_sent. Qed.

Lemma handle_never_raises env sid d s :
  (handle_user_message env sid d s).1 = Ok tt.
Proof.
  unfold handle_user_message, try_except.
  match goal with |- (let (_, _) := ?c in _).1 = _ => destruct c as [[[]|e] s'] end;
    [done|].
  unfold bind, utcnow. by rewrite broadcast_eq.
Qed.

Lemma handle_commit_fails env sid d s :
  is_Some (db_sessions (db s) !! sid) →
  commit_fails env (commits s) = true →
  handle_user_message env sid d s =
    broadcast_to_session env sid
      (error_event "Error processing message: commit failed"
         (clock env (S (S (ticks s)))))
      {| mgr := mgr s; sent := sent s; db := db s;
         ticks := S (S (S (ticks s))); uuids := uuids s;
         commits := S (commits s) |}.
Proof.
  intros [t0 Hs] Hf.
  unfold handle_user_message, try_except, bind, db_get_session, utcnow, db_commit.
  simpl. rewrite Hs. simpl. by rewrite Hf.
Qed.

Lemma handle_commit_ok env sid d s :
  is_Some (db_sessions (db s) !! sid) →
  commit_fails env (commits s) = false →
  ∃ rest,
    sent (handle_user_message env sid d s).2 =
      sent s ++
      ((λ w, (w, user_message_event (dict_get d "content" (VStr ""))
                   (clock env (S (S (ticks s)))) (uuid4 env (uuids s))))
         <$> filter (λ w, send_ok env w) (elements (observers (mgr s) sid)))
      ++ rest.
Proof.
  intros [t0 Hs] Hf. unfold handle_user_message, try_except.
  unfold bind at 1. unfold db_get_session at 1. rewrite Hs.
  unfold bind at 1. unfold utcnow at 1.
  unfold bind at 1. unfold utcnow at 1.
  unfold bind at 1. unfold db_commit at 1. simpl commits. rewrite Hf.
  unfold bind at 1. unfold utcnow at 1.
  unfold bind at 1. rewrite broadcast_eq.
  cbn [mgr sent db ticks uuids commits].
  match goal with
  | |- context [_simulate_agent_response env sid ?v ?s2] =>
      pose proof (sent_extends_simulate env sid v s2) as [l1 Hl1];
      pose proof (foldl_deliver_sent env
        (user_message_event (dict_get d "content" (VStr ""))
           (clock env (S (S (ticks s)))) (uuid4 env (uuids s)))
        (elements (observers (mgr s) sid))) as Hfold;
      destruct (_simulate_agent_response env sid v s2) as [[[]|e] s3]
  end; simpl in Hl1.
  - exists l1. simpl. rewrite Hl1, Hfold. simpl. by rewrite <- app_assoc.
  - match goal with
    | |- context [bind ?c ?k s3] =>
        assert (sent_extends s3 (bind c k s3).2) as [l2 Hl2]
    end.
    { apply (respects_bind sent_extends);
        [apply sent_extends_trans|apply sent_extends_utcnow|].
      intros t. apply sent_extends_broadcast. }
    exists (l1 ++ l2). rewrite Hl2, Hl1, Hfold. simpl. by rewrite <- !app_assoc.
Qed.

Lemma receive_message env ws sid d s :
  eq_str (dict_get d "type" (VStr "message")) "message" = true →
  receive_step env ws sid (FrameJson (VDict d)) s =
    (Ok Continue, (handle_user_message env sid d s).2).
Proof.
  intros Ht. unfold receive_step, try_except, bind at 1, receive_json, ret at 1.
  rewrite Ht. unfold bind.
  pose proof (handle_never_raises env sid d s) as Hok.
  destruct (handle_user_message env sid d s) as [r s']. simpl in Hok. by subst r.
Qed.

Lemma eq_str_inv v x : eq_str v x = true → v = VStr x.
Proof. destruct v; simpl; try done. by intros ->%bool_decide_eq_true. Qed.

Lemma receive_ping env ws sid d s :
  eq_str (dict_get d "type" (VStr "message")) "ping" = true →
  receive_step env ws sid (FrameJson (VDict d)) s =
    (Ok Continue,
     deliver env (pong_event (clock env (ticks s)))
       {| mgr := mgr s; sent := sent s; db := db s;
          ticks := S (ticks s); uuids := uuids s; commits := commits s |} ws).
Proof.
  intros Ht%eq_str_inv.
  unfold receive_step, try_except, bind at 1, receive_json, ret at 1.
  rewrite Ht. simpl. unfold bind, utcnow.
  by rewrite send_to_websocket_returns.
Qed.

(** ** Session statistics *)

Lemma stats_entries_eq env m l s :
  stats_entries env m l s =
    (Ok (imap (entry_at env (ticks s)) (omap (λ w, connection_metadata m !! w) l)),
     {| mgr := mgr s; sent := sent s; db := db s;
        ticks := ticks s + length (omap (λ w, connection_metadata m !! w) l);
        uuids := uuids s; commits := commits s |}).
Proof.
  revert s. induction l as [|w l IH]; intros s; simpl.
  { unfold ret. rewrite Nat.add_0_r. by destruct s. }
  unfold bind, stats_entry.
  destruct (connection_metadata m !! w) as [md|]; simpl.
  - unfold bind, utcnow, ret. rewrite IH. simpl.
    change (list_omap WebSocket metadata) with (@omap list _ WebSocket metadata).
    f_equal.
    + f_equal. f_equal.
      * unfold entry_at. by rewrite Nat.add_0_r.
      * apply imap_ext. intros k x _. unfold entry_at. simpl.
        by rewrite Nat.add_succ_r.
    + f_equal. lia.
  - unfold ret. by rewrite IH.
Qed.

Lemma omap_all_some {A B} (f : A → option B) (l : list A) :
  (∀ x, x ∈ l → is_Some (f x)) → length (omap f l) = length l.
Proof.
  induction l as [|x l IH]; intros H; [done|]. simpl.
  destruct (H x) as [y ->]; [by left|]. simpl. f_equal.
  apply IH. intros z Hz. apply H. by right.
Qed.

(** ** Examples *)

Example uuid_str_example :
  uuid_str 0x123e4567e89b42d3a456426614174000 =
    "123e4567-e89b-42d3-a456-426614174000".
Proof. by vm_compute. Qed.

(** After the two connects each WebSocket has had its welcome event and the
    session holds both. *)
Example two_observers_state :
  elements (observers (mgr two_observers) "s1") = [2; 1] ∧
  (λ x, (x.1, dict_get x.2 "type" VNone)) <$> sent two_observers
    = [(1, VStr "connection"); (2, VStr "connection")].
Proof. by vm_compute. Qed.

(** A message for a session that the database does not know: the 404 is
    reported to every observer of the session. *)
Example unknown_session_error :
  let env := example_env [] [] in
  let s := hub_run [(env, OpConnect 1 "s7" None)] (initial_state example_db) in
  delivered_since 1 (receive_step env 1 "s7" (FrameJson (VDict hi_payload)) s).2 =
    [(1, error_event "Error processing message: 404: Session not found"
           (clock env 2))].
Proof. by vm_compute. Qed.

(** Text that is not JSON is answered to the sender alone, and the loop goes
    on. *)
Example not_json_answered_to_sender :
  let env := example_env [] [] in
  let r := receive_step env 1 "s1" FrameNotJson two_observers in
  r.1 = Ok Continue ∧
  delivered_since 2 r.2 =
    [(1, error_event "Invalid JSON message format" (clock env 4))].
Proof. by vm_compute. Qed.

(** A whole connection: connect, a ping, then the disconnect; the manager is
    empty again afterwards. *)
Example endpoint_round_trip :
  let env := example_env [] [] in
  let r := websocket_endpoint env 1 "s1"
             [(env, FrameJson (VDict [("type", VStr "ping")]));
              (env, FrameDisconnect)]
             (initial_state example_db) in
  r.1 = Ok tt ∧ mgr r.2 = new_manager ∧
  (λ x, (x.1, dict_get x.2 "type" VNone)) <$> sent r.2
    = [(1, VStr "connection"); (1, VStr "pong")].
Proof. by vm_compute. Qed.

(** ** The claims about the hub *)

(** C5 (counterexample).  Session s1 has the observers 1 and 2; observer 1
    sends a message and the commit fails.  The error event is delivered to
    observer 2 as well, not to the sender only. *)
Lemma persistence_error_reaches_other_observer :
  let env := example_env [] [0] in
  let r := receive_step env 1 "s1" (FrameJson (VDict hi_payload)) two_observers in
  let err := error_event "Error processing message: commit failed" (clock env 6) in
  delivered_since 2 r.2 = [(2, err); (1, err)] ∧
  (2, err) ∈ delivered_since 2 r.2.
Proof.
  assert (delivered_since 2
            (receive_step (example_env [] [0]) 1 "s1" (FrameJson (VDict hi_payload))
               two_observers).2 =
          [(2, error_event "Error processing message: commit failed"
                 (clock (example_env [] [0]) 6));
           (1, error_event "Error processing message: commit failed"
                 (clock (example_env [] [0]) 6))]) as H by (by vm_compute).
  simpl. split; [exact H|]. rewrite H. by left.
Qed.

(** C5 (amended).  When the commit of an inbound user message fails, the
    receive step goes on without raising, the error event is delivered to
    every observer of the session whose link takes it (the sender is one of
    them only as an observer of the session), no event of another type is
    delivered, so no user_message event, and the database is unchanged. *)
Theorem persistence_failure_broadcasts_error env ws sid d s :
  eq_str (dict_get d "type" (VStr "message")) "message" = true →
  is_Some (db_sessions (db s) !! sid) →
  commit_fails env (commits s) = true →
  let r := receive_step env ws sid (FrameJson (VDict d)) s in
  let err := error_event "Error processing message: commit failed"
               (clock env (S (S (ticks s)))) in
  r.1 = Ok Continue ∧
  delivered_since (length (sent s)) r.2 =
    (λ w, (w, err)) <$>
      filter (λ w, send_ok env w) (elements (observers (mgr s) sid)) ∧
  (∀ w e, (w, e) ∈ delivered_since (length (sent s)) r.2 →
          eq_str (dict_get e "type" VNone) "error" = true ∧
          eq_str (dict_get e "type" VNone) "user_message" = false) ∧
  db r.2 = db s.
Proof.
  intros Ht Hs Hf r err.
  assert (r = (Ok Continue,
               (broadcast_to_session env sid err
                  {| mgr := mgr s; sent := sent s; db := db s;
                     ticks := S (S (S (ticks s))); uuids := uuids s;
                     commits := S (commits s) |}).2)) as Hr.
  { unfold r. rewrite receive_message by done. by rewrite handle_commit_fails. }
  assert (delivered_since (length (sent s)) r.2 =
    (λ w, (w, err)) <$>
      filter (λ w, send_ok env w) (elements (observers (mgr s) sid))) as Hd.
  { rewrite Hr. unfold delivered_since. simpl.
    rewrite broadcast_sent. simpl. by rewrite drop_app_length. }
  split_and!.
  - by rewrite Hr.
  - done.
  - intros w e. rewrite Hd. intros (w' & [= -> ->] & _)%list_elem_of_fmap. done.
  - rewrite Hr. simpl. rewrite broadcast_eq. simpl.
    by destruct (foldl_deliver_rest env err
                   (elements (observers (mgr s) sid))
                   {| mgr := mgr s; sent := sent s; db := db s;
                      ticks := S (S (S (ticks s))); uuids := uuids s;
                      commits := S (commits s) |}) as (-> & _).
Qed.

Lemma persistence_failure_broadcasts_error_witness :
  let env := example_env [] [0] in
  let r := receive_step env 1 "s1" (FrameJson (VDict hi_payload)) two_observers in
  r.1 = Ok Continue ∧ db r.2 = db two_observers.
Proof.
  intros env r.
  destruct (persistence_failure_broadcasts_error env 1 "s1" hi_payload two_observers)
    as (H1 & _ & _ & H4).
  - vm_compute. reflexivity.
  - exists (Datetime 0 "1970-01-01T00:00:00"). vm_compute. reflexivity.
  - vm_compute. reflexivity.
  - split; [exact H1 | exact H4].
Defined.

(** C7.  A payload of type "ping" makes the receive step answer the sender
    and nobody else: whatever is delivered is the pong event, carrying the
    clock reading as its timestamp, to the sending WebSocket; when the
    sender's link takes the frame, exactly one pong is delivered. *)
Theorem ping_answers_sender_only env ws sid d s :
  eq_str (dict_get d "type" (VStr "message")) "ping" = true →
  let r := receive_step env ws sid (FrameJson (VDict d)) s in
  let pong := pong_event (clock env (ticks s)) in
  r.1 = Ok Continue ∧
  dict_get pong "timestamp" VNone = VStr (isoformat (clock env (ticks s))) ∧
  (∀ w e, (w, e) ∈ delivered_since (length (sent s)) r.2 → w = ws ∧ e = pong) ∧
  (send_ok env ws = true →
   delivered_since (length (sent s)) r.2 = [(ws, pong)]).
Proof.
  intros Ht r pong. unfold r. rewrite receive_ping by done. simpl.
  split_and!; [done|done|..].
  - intros w e. unfold delivered_since. destruct (send_ok env ws) eqn:E.
    + rewrite deliver_ok by done. simpl. rewrite drop_app_length.
      by intros [= -> ->]%list_elem_of_singleton.
    + rewrite deliver_fail by done. simpl. rewrite drop_all.
      by intros ?%elem_of_nil.
  - intros E. unfold delivered_since. rewrite deliver_ok by done. simpl.
    by rewrite drop_app_length.
Qed.

Lemma ping_answers_sender_only_witness :
  let env := example_env [] [] in
  let r := receive_step env 1 "s1" (FrameJson (VDict [("type", VStr "ping")]))
             two_observers in
  delivered_since (length (sent two_observers)) r.2 =
    [(1, pong_event (clock env (ticks two_observers)))].
Proof.
  intros env r.
  destruct (ping_answers_sender_only env 1 "s1" [("type", VStr "ping")] two_observers)
    as (_ & _ & _ & H); [vm_compute; reflexivity|].
  apply H. vm_compute. reflexivity.
Defined.

Lemma string_length_app s1 s2 :
  String.length (s1 +:+ s2) = String.length s1 + String.length s2.
Proof.
  induction s1 as [|a s1 IH]; [done|].
  change (S (String.length (s1 +:+ s2)) = S (String.length s1 + String.length s2)).
  by rewrite IH.
Qed.

Lemma hex_fixed_length n x : String.length (hex_fixed n x) = n.
Proof.
  revert x. induction n as [|n IH]; intros x; [done|].
  change (hex_fixed (S n) x)
    with (hex_fixed n (x / 16) +:+ String (hex_digit (x mod 16)) "").
  rewrite string_length_app, IH. simpl. lia.
Qed.

Lemma uuid_str_length u : String.length (uuid_str u) = 36.
Proof.
  unfold uuid_str. rewrite !string_length_app, !hex_fixed_length. done.
Qed.

Lemma uuid_str_nonempty u : uuid_str u ≠ "".
Proof.
  intros E. pose proof (uuid_str_length u) as H. rewrite E in H. discriminate.
Qed.

(** C8.  Session [sid] has the observers [c1] and [c2], both with a link
    that takes frames; the session is known to the database and the commit
    goes through.  When [c1] sends [{"type": "message", "content": "hi"}],
    one and the same user_message event is delivered to [c1] and to [c2]; its
    content is "hi" and its message_id is a non-empty string. *)
Theorem message_reaches_both_observers env sid c1 c2 s :
  active_connections (mgr s) !! sid = Some {[c1; c2]} →
  send_ok env c1 = true →
  send_ok env c2 = true →
  is_Some (db_sessions (db s) !! sid) →
  commit_fails env (commits s) = false →
  let r := receive_step env c1 sid (FrameJson (VDict hi_payload)) s in
  r.1 = Ok Continue ∧
  ∃ e id,
    (c1, e) ∈ delivered_since (length (sent s)) r.2 ∧
    (c2, e) ∈ delivered_since (length (sent s)) r.2 ∧
    dict_get e "type" VNone = VStr "user_message" ∧
    dict_get e "content" VNone = VStr "hi" ∧
    dict_get e "message_id" VNone = VStr id ∧
    id ≠ "".
Proof.
  intros Hsid H1 H2 Hs Hf r. unfold r.
  rewrite receive_message by done. split; [done|].
  destruct (handle_commit_ok env sid hi_payload s Hs Hf) as [rest Hsent].
  set (e := user_message_event (dict_get hi_payload "content" (VStr ""))
              (clock env (S (S (ticks s)))) (uuid4 env (uuids s))) in *.
  exists e, (uuid_str (uuid4 env (uuids s))).
  assert (∀ c, c ∈ ({[c1; c2]} : gset WebSocket) → send_ok env c = true →
               (c, e) ∈ delivered_since (length (sent s))
                          (handle_user_message env sid hi_payload s).2) as Hin.
  { intros c Hc Hok. unfold delivered_since. simpl. rewrite Hsent, drop_app_length.
    apply elem_of_app. left. apply list_elem_of_fmap. exists c. split; [done|].
    apply list_elem_of_filter. split; [by rewrite Hok|].
    apply elem_of_elements. unfold observers. by rewrite Hsid. }
  split_and!; [apply Hin; [set_solver|done]..|done|done|done|].
  apply uuid_str_nonempty.
Qed.

Lemma message_reaches_both_observers_witness :
  let r := receive_step (example_env [] []) 1 "s1" (FrameJson (VDict hi_payload))
             two_observers in
  ∃ e id,
    (1, e) ∈ delivered_since (length (sent two_observers)) r.2 ∧
    (2, e) ∈ delivered_since (length (sent two_observers)) r.2 ∧
    dict_get e "content" VNone = VStr "hi" ∧
    dict_get e "message_id" VNone = VStr id ∧
    id ≠ "".
Proof.
  destruct (message_reaches_both_observers (example_env [] []) "s1" 1 2 two_observers)
    as (_ & e & id & Ha & Hb & _ & Hc & Hd & He).
  - vm_compute. reflexivity.
  - vm_compute. reflexivity.
  - vm_compute. reflexivity.
  - exists (Datetime 0 "1970-01-01T00:00:00"). vm_compute. reflexivity.
  - vm_compute. reflexivity.
  - exists e, id. split_and!; [exact Ha|exact Hb|exact Hc|exact Hd|exact He].
Defined.

(** C10.  [get_session_stats] returns, for a session without a key in
    [active_connections], the mapping with [active_connections] 0 and no
    connection list; for a session stored with the set [conns], the size of
    [conns] and one entry (user id, connect time, duration since then) for
    each observer that has metadata, in iteration order.  In a consistent
    manager a session without observers has no key, and every observer has
    metadata, so the list has as many entries as the set has members. *)
Theorem session_stats_counts_observers env sid s :
  (active_connections (mgr s) !! sid = None →
   (get_session_stats env sid s).1 = Ok (Stats 0 None)) ∧
  (∀ conns, active_connections (mgr s) !! sid = Some conns →
     (get_session_stats env sid s).1 =
       Ok (Stats (size conns)
             (Some (imap (entry_at env (ticks s))
                      (omap (λ w, connection_metadata (mgr s) !! w)
                            (elements conns)))))) ∧
  (hub_consistent (mgr s) →
   (observers (mgr s) sid = ∅ →
    (get_session_stats env sid s).1 = Ok (Stats 0 None)) ∧
   (∀ conns, active_connections (mgr s) !! sid = Some conns →
      length (omap (λ w, connection_metadata (mgr s) !! w) (elements conns))
        = size conns)).
Proof.
  assert (active_connections (mgr s) !! sid = None →
          (get_session_stats env sid s).1 = Ok (Stats 0 None)) as Hnone.
  { intros H. unfold get_session_stats, bind, get_mgr. by rewrite H. }
  split_and!; [done| |].
  - intros conns H. unfold get_session_stats, bind, get_mgr. rewrite H.
    by rewrite stats_entries_eq.
  - intros [Hc Hne]. split.
    + intros Hobs. apply Hnone. unfold observers in Hobs.
      destruct (active_connections (mgr s) !! sid) as [conns|] eqn:E; [|done].
      simpl in Hobs. by destruct (Hne sid conns E).
    + intros conns H. rewrite omap_all_some; [done|].
      intros w Hw%elem_of_elements.
      destruct (proj2 (Hc w sid)) as (md & -> & _); by eauto.
Qed.

Lemma session_stats_counts_observers_witness :
  (get_session_stats (example_env [] []) "s9" two_observers).1 = Ok (Stats 0 None) ∧
  ∃ infos,
    (get_session_stats (example_env [] []) "s1" two_observers).1 =
      Ok (Stats (size ({[1; 2]} : gset WebSocket)) (Some infos)) ∧
    length infos = 2.
Proof.
  destruct (session_stats_counts_observers (example_env [] []) "s9" two_observers)
    as (H0 & _ & _).
  destruct (session_stats_counts_observers (example_env [] []) "s1" two_observers)
    as (_ & H1 & _).
  split; [apply H0; vm_compute; reflexivity|].
  eexists. split; [apply (H1 {[1; 2]}); vm_compute; reflexivity|].
  vm_compute. reflexivity.
Defined.


(* ===================================================================== *)
(** * Further properties of the hub *)
(* ===================================================================== *)

(** ** Connecting and disconnecting *)

Lemma with_mgr_same s : with_mgr (mgr s) s = s.
Proof. by destruct s. Qed.

Lemma disconnect_eq ws s :
  disconnect ws s = (Ok tt, with_mgr (disconnect_mgr ws (mgr s)) s).
Proof. reflexivity. Qed.

Lemma register_then_disconnect ws sid uid t m :
  hub_consistent m →
  connection_metadata m !! ws = None →
  disconnect_mgr ws
    {| active_connections :=
         <[sid := {[ws]} ∪ default ∅ (active_connections m !! sid)]>
           (active_connections m);
       connection_metadata :=
         <[ws := Metadata sid uid t]> (connection_metadata m) |} = m.
Proof.
  intros [Hc Hne] Hfresh. unfold disconnect_mgr. simpl.
  rewrite lookup_insert_eq. simpl. rewrite lookup_insert_eq.
  destruct m as [ac md]. simpl in *. f_equal.
  - destruct (ac !! sid) as [c|] eqn:E; simpl.
    + assert (ws ∉ c) as Hnot.
      { intros Hin. destruct (proj2 (Hc ws sid)) as (x & Hx & _); [by eauto|].
        congruence. }
      assert (({[ws]} ∪ c) ∖ {[ws]} = c) as -> by set_solver.
      rewrite decide_False by eauto.
      rewrite insert_insert_eq. by apply insert_id.
    + assert (({[ws]} ∪ ∅) ∖ {[ws]} = (∅ : gset WebSocket)) as -> by set_solver.
      rewrite decide_True by done. by apply delete_insert_id.
  - by apply delete_insert_id.
Qed.

Lemma disconnect_mgr_active_other ws m sid :
  (∀ md, connection_metadata m !! ws = Some md → session_id md ≠ sid) →
  active_connections (disconnect_mgr ws m) !! sid = active_connections m !! sid.
Proof.
  intros H. unfold disconnect_mgr.
  destruct (connection_metadata m !! ws) as [md|]; [|done]. simpl.
  specialize (H md eq_refl).
  destruct (active_connections m !! session_id md); [|done].
  case_decide; [by rewrite lookup_delete_ne|by rewrite lookup_insert_ne].
Qed.

Lemma disconnect_mgr_metadata_eq ws m :
  connection_metadata (disconnect_mgr ws m) = delete ws (connection_metadata m).
Proof.
  unfold disconnect_mgr.
  destruct (connection_metadata m !! ws) as [md|] eqn:E; [done|].
  by rewrite delete_id.
Qed.

(** X7.  [disconnect] is idempotent: a second disconnect of the same
    WebSocket changes nothing, and so does the disconnect of a WebSocket that
    has no metadata entry. *)
Theorem disconnect_is_idempotent ws s :
  disconnect ws (disconnect ws s).2 = (Ok tt, (disconnect ws s).2) ∧
  (connection_metadata (mgr s) !! ws = None → disconnect ws s = (Ok tt, s)).
Proof.
  split.
  - rewrite !disconnect_eq. simpl. by rewrite disconnect_mgr_idem.
  - intros H. rewrite disconnect_eq, disconnect_mgr_unregistered by done.
    by rewrite with_mgr_same.
Qed.

Lemma disconnect_is_idempotent_witness :
  disconnect 7 two_observers = (Ok tt, two_observers).
Proof.
  apply (disconnect_is_idempotent 7 two_observers). vm_compute. reflexivity.
Defined.

(** X8.  In a consistent manager, for a WebSocket that is not registered:
    a connect followed by a disconnect gives back the manager as it was, and
    a connect whose welcome message cannot be sent leaves the manager as it
    was. *)
Theorem connect_then_disconnect_restores env ws sid uid s :
  hub_consistent (mgr s) →
  connection_metadata (mgr s) !! ws = None →
  mgr (disconnect ws (connect env ws sid uid s).2).2 = mgr s ∧
  (send_ok env ws = false → mgr (connect env ws sid uid s).2 = mgr s).
Proof.
  intros Hc Hfresh. rewrite connect_eq, send_to_websocket_returns, disconnect_eq.
  simpl. destruct (send_ok env ws) eqn:E.
  - rewrite deliver_ok by done. simpl. split; [|done].
    by apply register_then_disconnect.
  - rewrite deliver_fail by done. simpl.
    rewrite disconnect_mgr_idem, register_then_disconnect by done. done.
Qed.

Lemma connect_then_disconnect_restores_witness :
  mgr (disconnect 3 (connect (example_env [] []) 3 "s1" None two_observers).2).2
  = mgr two_observers.
Proof.
  apply (connect_then_disconnect_restores (example_env [] []) 3 "s1" None
           two_observers).
  - apply two_observers_consistent.
  - vm_compute. reflexivity.
Defined.

(** X9.  A connect whose welcome message goes through returns normally,
    delivers the connection event to the new WebSocket and to nobody else,
    records its session, user and connect time, adds it to the observers of
    the session next to those already there, and leaves the other sessions
    and the other metadata entries alone. *)
Theorem connect_registers env ws sid uid s :
  send_ok env ws = true →
  let r := connect env ws sid uid s in
  r.1 = Ok tt ∧
  delivered_since (length (sent s)) r.2 =
    [(ws, [("type", VStr "connection"); ("status", VStr "connected");
           ("session_id", VStr sid);
           ("timestamp", VStr (isoformat (clock env (S (ticks s)))))])] ∧
  connection_metadata (mgr r.2) !! ws
    = Some (Metadata sid uid (clock env (ticks s))) ∧
  observers (mgr r.2) sid = {[ws]} ∪ observers (mgr s) sid ∧
  (∀ sid', sid' ≠ sid →
     active_connections (mgr r.2) !! sid' = active_connections (mgr s) !! sid') ∧
  (∀ w, w ≠ ws →
     connection_metadata (mgr r.2) !! w = connection_metadata (mgr s) !! w).
Proof.
  intros Hok r. unfold r.
  rewrite connect_eq, send_to_websocket_returns, deliver_ok by done. simpl.
  unfold delivered_since, observers. simpl.
  split_and!.
  - done.
  - by rewrite drop_app_length.
  - apply lookup_insert_eq.
  - by rewrite lookup_insert_eq.
  - intros sid' Hne. by rewrite lookup_insert_ne.
  - intros w Hne. by rewrite lookup_insert_ne.
Qed.

Lemma connect_registers_witness :
  observers (mgr (connect (example_env [] []) 3 "s1" None two_observers).2) "s1"
  = {[3]} ∪ observers (mgr two_observers) "s1".
Proof.
  destruct (connect_registers (example_env [] []) 3 "s1" None two_observers)
    as (_ & _ & _ & H & _).
  - vm_compute. reflexivity.
  - exact H.
Defined.



(** ** Broadcasts in general *)

Lemma consistent_member m w sid :
  hub_consistent m →
  w ∈ observers m sid ↔
  ∃ md, connection_metadata m !! w = Some md ∧ session_id md = sid.
Proof.
  intros [Hc _]. rewrite (Hc w sid). unfold observers. split.
  - destruct (active_connections m !! sid) as [c|]; simpl; [by eauto|set_solver].
  - intros (c & -> & Hin). done.
Qed.

Lemma observers_disconnect m w sid :
  hub_consistent m →
  observers (disconnect_mgr w m) sid = observers m sid ∖ {[w]}.
Proof.
  intros Hc. pose proof (consistent_member m w sid Hc) as Hmem.
  destruct (connection_metadata m !! w) as [md|] eqn:Hmd.
  - destruct (decide (session_id md = sid)) as [<-|Hne].
    + assert (w ∈ observers m (session_id md)) as Hin by (apply Hmem; eauto).
      unfold observers in Hin |- *.
      destruct (active_connections m !! session_id md) as [c|] eqn:E;
        [|set_solver].
      apply (disconnect_mgr_observers w (session_id md) c m); done.
    + unfold observers at 1. rewrite disconnect_mgr_active_other.
      * fold (observers m sid).
        assert (w ∉ observers m sid); [|set_solver].
        intros (md' & Hx & Hs)%Hmem. congruence.
      * intros md' Hx. congruence.
  - rewrite disconnect_mgr_unregistered by done.
    assert (w ∉ observers m sid); [|set_solver].
    intros (md' & Hx & _)%Hmem. congruence.
Qed.

Lemma foldl_drop_consistent env l m :
  hub_consistent m → hub_consistent (foldl (drop_failed env) m l).
Proof.
  revert m. induction l as [|w l IH]; intros m Hc; [done|]. simpl.
  apply IH. unfold drop_failed. destruct (send_ok env w); [done|].
  by apply disconnect_mgr_consistent.
Qed.

Lemma foldl_drop_observers env l m sid :
  hub_consistent m →
  observers (foldl (drop_failed env) m l) sid =
    observers m sid ∖ list_to_set (filter (λ w, send_ok env w = false) l).
Proof.
  revert m. induction l as [|w l IH]; intros m Hc; simpl.
  { set_solver. }
  rewrite filter_cons. unfold drop_failed at 2.
  destruct (send_ok env w) eqn:E.
  - rewrite decide_False by done. by apply IH.
  - rewrite decide_True by done.
    rewrite IH by by apply disconnect_mgr_consistent.
    rewrite observers_disconnect by done. set_solver.
Qed.

Lemma foldl_drop_metadata env l m w :
  connection_metadata (foldl (drop_failed env) m l) !! w =
    if bool_decide (w ∈ filter (λ w, send_ok env w = false) l)
    then None else connection_metadata m !! w.
Proof.
  revert m. induction l as [|x l IH]; intros m.
  { case_bool_decide as H; [by apply elem_of_nil in H|done]. }
  cbn [foldl]. rewrite IH, filter_cons. unfold drop_failed.
  destruct (send_ok env x) eqn:E.
  - by rewrite decide_False by done.
  - rewrite decide_True by done. rewrite disconnect_mgr_metadata_eq.
    destruct (decide (w = x)) as [->|Hne].
    + rewrite lookup_delete_eq.
      rewrite (bool_decide_eq_true_2 (x ∈ x :: _)) by by left.
      by case_bool_decide.
    + rewrite lookup_delete_ne by done.
      repeat case_bool_decide; set_solver.
Qed.

(** X11.  A broadcast, in whatever state, returns normally; it delivers the
    event once to each observer of the session whose link takes it, in
    iteration order, and to nobody else; it leaves the database untouched;
    and for a session without observers it changes nothing at all. *)
Theorem broadcast_stays_in_session env sid msg s :
  let r := broadcast_to_session env sid msg s in
  r.1 = Ok tt ∧
  delivered_since (length (sent s)) r.2 =
    (λ w, (w, msg)) <$> reachable env (mgr s) sid ∧
  (∀ w e, (w, e) ∈ delivered_since (length (sent s)) r.2 →
     w ∈ observers (mgr s) sid ∧ send_ok env w = true ∧ e = msg) ∧
  db r.2 = db s ∧
  (observers (mgr s) sid = ∅ → r.2 = s).
Proof.
  intros r.
  assert (delivered_since (length (sent s)) r.2 =
            (λ w, (w, msg)) <$> reachable env (mgr s) sid) as Hd.
  { unfold r, delivered_since. by rewrite broadcast_sent, drop_app_length. }
  split_and!.
  - unfold r. by rewrite broadcast_eq.
  - done.
  - intros w e. rewrite Hd.
    intros (w' & [= -> ->] & [Hok Hin]%list_elem_of_filter)%list_elem_of_fmap.
    split_and!; [by apply elem_of_elements|by destruct (send_ok env w')|done].
  - unfold r. rewrite broadcast_eq. simpl.
    by destruct (foldl_deliver_rest env msg (elements (observers (mgr s) sid)) s)
      as (-> & _).
  - intros Hemp. unfold r. rewrite broadcast_eq, Hemp, elements_empty. done.
Qed.

(** X12.  In a consistent manager a broadcast removes exactly the observers
    of the session to whom the send fails: afterwards the manager is still
    consistent, the observers of the session are the former ones without the
    failing ones, the observers of every other session are unchanged, and the
    metadata entries of the failing ones, and only those, are gone. *)
Theorem broadcast_removes_failed env sid msg s :
  hub_consistent (mgr s) →
  let r := broadcast_to_session env sid msg s in
  hub_consistent (mgr r.2) ∧
  observers (mgr r.2) sid
    = observers (mgr s) sid ∖ list_to_set (failing env (mgr s) sid) ∧
  (∀ sid', sid' ≠ sid → observers (mgr r.2) sid' = observers (mgr s) sid') ∧
  (∀ w, connection_metadata (mgr r.2) !! w =
          if bool_decide (w ∈ failing env (mgr s) sid)
          then None else connection_metadata (mgr s) !! w).
Proof.
  intros Hc r.
  assert (mgr r.2 = foldl (drop_failed env) (mgr s) (elements (observers (mgr s) sid)))
    as Hm.
  { unfold r. rewrite broadcast_eq. simpl. apply foldl_deliver_mgr. }
  rewrite Hm. split_and!.
  - by apply foldl_drop_consistent.
  - by apply foldl_drop_observers.
  - intros sid' Hne. rewrite foldl_drop_observers by done.
    assert (∀ w, w ∈ filter (λ w, send_ok env w = false)
                       (elements (observers (mgr s) sid)) →
                 w ∉ observers (mgr s) sid') as Hdis; [|set_solver].
    intros w [_ Hin%elem_of_elements]%list_elem_of_filter Hin'.
    apply (consistent_member _ _ _ Hc) in Hin as (md & Hmd & Hs).
    apply (consistent_member _ _ _ Hc) in Hin' as (md' & Hmd' & Hs').
    congruence.
  - intros w. apply foldl_drop_metadata.
Qed.

Lemma broadcast_removes_failed_witness :
  let r := broadcast_to_session (example_env [1; 2] []) "s1" [] two_observers in
  observers (mgr r.2) "s1"
  = observers (mgr two_observers) "s1"
      ∖ list_to_set (failing (example_env [1; 2] []) (mgr two_observers) "s1").
Proof.
  destruct (broadcast_removes_failed (example_env [1; 2] []) "s1" [] two_observers)
    as (_ & H & _).
  - apply two_observers_consistent.
  - exact H.
Defined.

(** ** Container events *)

Lemma container_event_not_stored env sid event_type data s :
  bool_decide (event_type ∈ ["screenshot"; "tool_result"]) = false →
  handle_container_event env sid event_type data s =
    broadcast_to_session env sid
      (container_event event_type data (clock env (ticks s)))
      {| mgr := mgr s; sent := sent s; db := db s;
         ticks := S (ticks s); uuids := uuids s; commits := commits s |}.
Proof.
  intros H. unfold handle_container_event, try_except. rewrite H.
  unfold bind, ret, utcnow. by rewrite broadcast_eq.
Qed.

Lemma container_event_commit_fails env sid event_type data s :
  bool_decide (event_type ∈ ["screenshot"; "tool_result"]) = true →
  commit_fails env (commits s) = true →
  handle_container_event env sid event_type data s =
    (Ok tt, {| mgr := mgr s; sent := sent s; db := db s;
               ticks := S (ticks s); uuids := uuids s;
               commits := S (commits s) |}).
Proof.
  intros H Hf. unfold handle_container_event, try_except. rewrite H.
  unfold bind, ret, utcnow, db_commit. simpl. by rewrite Hf.
Qed.

Lemma container_event_commit_ok env sid event_type data s :
  bool_decide (event_type ∈ ["screenshot"; "tool_result"]) = true →
  commit_fails env (commits s) = false →
  handle_container_event env sid event_type data s =
    broadcast_to_session env sid
      (container_event event_type data (clock env (S (ticks s))))
      {| mgr := mgr s; sent := sent s;
         db := {| db_sessions := db_sessions (db s);
                  db_chat_history :=
                    db_chat_history (db s) ++
                    [ChatRow (uuid4 env (uuids s)) sid
                       (dict_get data "message" (VStr "")) "tool"
                       (clock env (ticks s)) (VDict data)] |};
         ticks := S (S (ticks s)); uuids := S (uuids s);
         commits := S (commits s) |}.
Proof.
  intros H Hf. unfold handle_container_event, try_except. rewrite H.
  unfold bind, ret, utcnow, db_commit. simpl. rewrite Hf.
  rewrite !broadcast_eq. reflexivity.
Qed.

(** X13.  [handle_container_event] never raises.  When the event is a
    screenshot or a tool result and the commit of its row fails, the event
    is dropped without a trace: nothing is delivered to any observer, not
    even an error event, and the manager and the database are unchanged. *)
Theorem container_event_dropped_when_commit_fails env sid event_type data s :
  let r := handle_container_event env sid event_type data s in
  r.1 = Ok tt ∧
  (event_type ∈ ["screenshot"; "tool_result"] →
   commit_fails env (commits s) = true →
   sent r.2 = sent s ∧ mgr r.2 = mgr s ∧ db r.2 = db s).
Proof.
  intros r. split.
  - unfold r.
    destruct (bool_decide (event_type ∈ ["screenshot"; "tool_result"])) eqn:E.
    + destruct (commit_fails env (commits s)) eqn:Hf.
      * by rewrite container_event_commit_fails.
      * rewrite container_event_commit_ok by done. by rewrite broadcast_eq.
    + rewrite container_event_not_stored by done. by rewrite broadcast_eq.
  - intros Hin Hf. unfold r.
    rewrite container_event_commit_fails; [done| |done].
    by apply bool_decide_eq_true_2.
Qed.

Lemma container_event_dropped_when_commit_fails_witness :
  sent (handle_container_event (example_env [] [0]) "s1" "screenshot"
          [("message", VStr "shot")] two_observers).2
  = sent two_observers.
Proof.
  destruct (container_event_dropped_when_commit_fails (example_env [] [0]) "s1"
              "screenshot" [("message", VStr "shot")] two_observers) as [_ H].
  destruct H as (H & _ & _).
  - apply (bool_decide_unpack _). vm_compute. exact I.
  - vm_compute. reflexivity.
  - exact H.
Defined.

(** X14.  When no commit fails, [handle_container_event] delivers the event,
    with its type and data, to every observer of the session whose link
    takes it.  A screenshot or tool result is stored first, as one row of
    type tool holding the message of the data; an event of any other type
    writes nothing to the database. *)
Theorem container_event_is_broadcast env sid event_type data s :
  commit_fails env (commits s) = false →
  let r := handle_container_event env sid event_type data s in
  let stored := bool_decide (event_type ∈ ["screenshot"; "tool_result"]) in
  delivered_since (length (sent s)) r.2 =
    (λ w, (w, container_event event_type data
                (clock env (if stored then S (ticks s) else ticks s))))
      <$> reachable env (mgr s) sid ∧
  db_sessions (db r.2) = db_sessions (db s) ∧
  db_chat_history (db r.2) =
    db_chat_history (db s) ++
    (if stored
     then [ChatRow (uuid4 env (uuids s)) sid (dict_get data "message" (VStr ""))
             "tool" (clock env (ticks s)) (VDict data)]
     else []).
Proof.
  intros Hf r stored. unfold r, stored, delivered_since.
  destruct (bool_decide (event_type ∈ ["screenshot"; "tool_result"])) eqn:E.
  - rewrite container_event_commit_ok by done.
    rewrite broadcast_sent, broadcast_eq. simpl. rewrite drop_app_length.
    match goal with |- context [foldl (deliver env ?m) ?s0 ?l] =>
      destruct (foldl_deliver_rest env m l s0) as (-> & _) end.
    done.
  - rewrite container_event_not_stored by done.
    rewrite broadcast_sent, broadcast_eq. simpl. rewrite drop_app_length.
    match goal with |- context [foldl (deliver env ?m) ?s0 ?l] =>
      destruct (foldl_deliver_rest env m l s0) as (-> & _) end.
    simpl. by rewrite app_nil_r.
Qed.

Lemma container_event_is_broadcast_witness :
  db_chat_history
    (db (handle_container_event (example_env [] []) "s1" "cursor" [] two_observers).2)
  = db_chat_history (db two_observers) ++ [].
Proof.
  destruct (container_event_is_broadcast (example_env [] []) "s1" "cursor" []
              two_observers) as (_ & _ & H).
  - vm_compute. reflexivity.
  - exact H.
Defined.

(** ** The paths of handle_user_message *)

Lemma simulate_eq env sid v s :
  _simulate_agent_response env sid v s =
    if commit_fails env (commits s) then
      (Raise (DBError "commit failed"),
       {| mgr := mgr s; sent := sent s; db := db s;
          ticks := S (ticks s); uuids := uuids s; commits := S (commits s) |})
    else
      broadcast_to_session env sid
        (agent_message_event (simulated_answer env v) (clock env (S (ticks s)))
           (uuid4 env (uuids s)))
        {| mgr := mgr s; sent := sent s;
           db := {| db_sessions := db_sessions (db s);
                    db_chat_history :=
                      db_chat_history (db s) ++
                      [ChatRow (uuid4 env (uuids s)) sid
                         (VStr (simulated_answer env v)) "assistant"
                         (clock env (ticks s))
                         (VDict [("simulated", VBool true)])] |};
           ticks := S (S (ticks s)); uuids := S (uuids s);
           commits := S (commits s) |}.
Proof.
  unfold _simulate_agent_response, bind, utcnow, db_commit. simpl.
  destruct (commit_fails env (commits s)); [done|]. by rewrite !broadcast_eq.
Qed.

Lemma handle_unknown_session env sid d s :
  db_sessions (db s) !! sid = None →
  handle_user_message env sid d s =
    broadcast_to_session env sid
      (error_event "Error processing message: 404: Session not found"
         (clock env (ticks s)))
      {| mgr := mgr s; sent := sent s; db := db s;
         ticks := S (ticks s); uuids := uuids s; commits := commits s |}.
Proof.
  intros Hs.
  unfold handle_user_message, try_except, bind, db_get_session, raise, utcnow.
  rewrite Hs. reflexivity.
Qed.

(** X15.  A message for a session that the database does not know is
    answered with the error event of the 404, delivered to every observer of
    the session whose link takes it; nothing is written and no commit is
    attempted; the call returns normally. *)
Theorem unknown_session_reports_not_found env sid d s :
  db_sessions (db s) !! sid = None →
  let r := handle_user_message env sid d s in
  r.1 = Ok tt ∧
  delivered_since (length (sent s)) r.2 =
    (λ w, (w, error_event "Error processing message: 404: Session not found"
                (clock env (ticks s))))
      <$> reachable env (mgr s) sid ∧
  db r.2 = db s ∧ commits r.2 = commits s.
Proof.
  intros Hs r. unfold r, delivered_since. rewrite handle_unknown_session by done.
  rewrite broadcast_sent, broadcast_eq. simpl. rewrite drop_app_length.
  match goal with |- context [foldl (deliver env ?m) ?s0 ?l] =>
    destruct (foldl_deliver_rest env m l s0) as (-> & _ & _ & ->) end.
  done.
Qed.

Lemma unknown_session_reports_not_found_witness :
  db (handle_user_message (example_env [] []) "s7" hi_payload two_observers).2
  = db two_observers.
Proof.
  destruct (unknown_session_reports_not_found (example_env [] []) "s7" hi_payload
              two_observers) as (_ & _ & H & _).
  - vm_compute. reflexivity.
  - exact H.
Defined.


Lemma reachable_after_drop env m sid :
  hub_consistent m →
  reachable env (foldl (drop_failed env) m (elements (observers m sid))) sid
    ≡ₚ reachable env m sid.
Proof.
  intros Hc. unfold reachable. apply NoDup_Permutation.
  - apply NoDup_filter, NoDup_elements.
  - apply NoDup_filter, NoDup_elements.
  - intros x. rewrite !list_elem_of_filter, !elem_of_elements.
    rewrite foldl_drop_observers by done.
    rewrite elem_of_difference, elem_of_list_to_set, list_elem_of_filter,
      elem_of_elements.
    destruct (send_ok env x); naive_solver.
Qed.

Lemma handle_found_eq env sid d s :
  is_Some (db_sessions (db s) !! sid) →
  commit_fails env (commits s) = false →
  handle_user_message env sid d s =
    try_except
      (broadcast_to_session env sid
         (user_message_event (dict_get d "content" (VStr ""))
            (clock env (S (S (ticks s)))) (uuid4 env (uuids s))) ;;
       _simulate_agent_response env sid (dict_get d "content" (VStr "")))
      (λ e,
         t <- utcnow env ;;
         broadcast_to_session env sid
           (error_event ("Error processing message: " +:+ str_exn e) t))
      {| mgr := mgr s; sent := sent s;
         db := {| db_sessions :=
                    <[sid := clock env (S (ticks s))]> (db_sessions (db s));
                  db_chat_history :=
                    db_chat_history (db s) ++
                    [ChatRow (uuid4 env (uuids s)) sid
                       (dict_get d "content" (VStr "")) "user"
                       (clock env (ticks s))
                       (dict_get d "metadata" (VDict []))] |};
         ticks := S (S (S (ticks s))); uuids := S (uuids s);
         commits := S (commits s) |}.
Proof.
  intros [t0 Hs] Hf.
  unfold handle_user_message, try_except.
  unfold bind at 1. unfold db_get_session at 1. rewrite Hs.
  unfold bind at 1. unfold utcnow at 1.
  unfold bind at 1. unfold utcnow at 1.
  unfold bind at 1. unfold db_commit at 1. simpl commits. rewrite Hf.
  unfold bind at 1. unfold utcnow at 1.
  reflexivity.
Qed.

(** X16.  In a consistent manager, when the row of an inbound user message
    is committed, the call returns normally; the database holds the user row
    under the id that the user_message event announces, and the session's
    last activity is updated; every observer whose link takes frames gets the
    user_message event and after it a second event: the agent_message, whose
    row is then stored too, or, when the commit of the answer fails, the error
    event, with the user row left in place. *)
Theorem user_message_then_answer env sid d s :
  hub_consistent (mgr s) →
  is_Some (db_sessions (db s) !! sid) →
  commit_fails env (commits s) = false →
  let r := handle_user_message env sid d s in
  let content := dict_get d "content" (VStr "") in
  let um := user_message_event content (clock env (S (S (ticks s))))
              (uuid4 env (uuids s)) in
  let user_row := ChatRow (uuid4 env (uuids s)) sid content "user"
                    (clock env (ticks s)) (dict_get d "metadata" (VDict [])) in
  let answer_row := ChatRow (uuid4 env (S (uuids s))) sid
                      (VStr (simulated_answer env content)) "assistant"
                      (clock env (3 + ticks s))
                      (VDict [("simulated", VBool true)]) in
  let second :=
    if commit_fails env (S (commits s))
    then error_event "Error processing message: commit failed"
           (clock env (4 + ticks s))
    else agent_message_event (simulated_answer env content)
           (clock env (4 + ticks s)) (uuid4 env (S (uuids s))) in
  r.1 = Ok tt ∧
  db_sessions (db r.2) = <[sid := clock env (S (ticks s))]> (db_sessions (db s)) ∧
  db_chat_history (db r.2) =
    db_chat_history (db s) ++
    user_row :: (if commit_fails env (S (commits s)) then [] else [answer_row]) ∧
  ∃ again,
    again ≡ₚ reachable env (mgr s) sid ∧
    delivered_since (length (sent s)) r.2 =
      ((λ w, (w, um)) <$> reachable env (mgr s) sid) ++
      ((λ w, (w, second)) <$> again).
Proof.
  intros Hc Hs Hf r content um user_row answer_row second.
  set (s1 := {| mgr := mgr s; sent := sent s;
                db := {| db_sessions := <[sid:=clock env (S (ticks s))]>
                                          (db_sessions (db s));
                         db_chat_history := db_chat_history (db s) ++ [user_row] |};
                ticks := S (S (S (ticks s))); uuids := S (uuids s);
                commits := S (commits s) |}).
  set (s2 := foldl (deliver env um) s1 (elements (observers (mgr s) sid))).
  destruct (foldl_deliver_rest env um (elements (observers (mgr s) sid)) s1)
    as (Hdb & Hticks & Huuids & Hcommits).
  pose proof (foldl_deliver_sent env um (elements (observers (mgr s) sid)) s1) as Hsent.
  pose proof (foldl_deliver_mgr env um (elements (observers (mgr s) sid)) s1) as Hmgr.
  fold s2 in Hdb, Hticks, Huuids, Hcommits, Hsent, Hmgr. simpl in *.
  assert (reachable env (mgr s2) sid ≡ₚ reachable env (mgr s) sid) as Hperm.
  { rewrite Hmgr. by apply reachable_after_drop. }
  assert (∃ s3, r = (Ok tt, foldl (deliver env second) s3
                              (elements (observers (mgr s2) sid))) ∧
                sent s3 = sent s2 ∧
                db s3 = {| db_sessions := <[sid:=clock env (S (ticks s))]>
                                            (db_sessions (db s));
                           db_chat_history :=
                             db_chat_history (db s) ++
                             user_row :: (if commit_fails env (S (commits s))
                                          then [] else [answer_row]) |})
    as (s3 & Hr & Hsent3 & Hdb3).
  { unfold r. rewrite handle_found_eq by done. fold content um user_row s1.
    unfold try_except. unfold bind at 1. rewrite broadcast_eq.
    change (foldl (deliver env um) s1 (elements (observers (mgr s1) sid))) with s2.
    cbv beta iota.
    rewrite simulate_eq, Hcommits, Huuids, Hticks, Hdb.
    unfold second, answer_row. destruct (commit_fails env (S (commits s))).
    - unfold bind, utcnow. rewrite broadcast_eq. cbn [mgr sent db ticks].
      eexists. split; [reflexivity|]. done.
    - rewrite broadcast_eq. cbn [mgr sent db ticks].
      eexists. split; [reflexivity|]. simpl. by rewrite <- app_assoc. }
  rewrite Hr. simpl.
  destruct (foldl_deliver_rest env second (elements (observers (mgr s2) sid)) s3)
    as (-> & _).
  rewrite Hdb3. simpl. split_and!; [done..|].
  exists (reachable env (mgr s2) sid). split; [done|].
  unfold delivered_since. rewrite foldl_deliver_sent, Hsent3, Hsent.
  by rewrite <- app_assoc, drop_app_length.
Qed.

Lemma user_message_then_answer_witness :
  let r := handle_user_message (example_env [] [1]) "s1" hi_payload two_observers in
  r.1 = Ok tt ∧
  db_sessions (db r.2)
  = <["s1" := clock (example_env [] [1]) (S (ticks two_observers))]>
      (db_sessions (db two_observers)).
Proof.
  destruct (user_message_then_answer (example_env [] [1]) "s1" hi_payload
              two_observers) as (H1 & H2 & _).
  - apply two_observers_consistent.
  - exists (Datetime 0 "1970-01-01T00:00:00"). vm_compute. reflexivity.
  - vm_compute. reflexivity.
  - split; [exact H1|exact H2].
Defined.

(** ** The receive loop *)

Lemma tick_deliver_returns env ws msg s :
  (t <- utcnow env ;; send_to_websocket env ws (msg t) ;; ret Continue) s =
    (Ok Continue,
     deliver env (msg (clock env (ticks s)))
       {| mgr := mgr s; sent := sent s; db := db s;
          ticks := S (ticks s); uuids := uuids s; commits := commits s |} ws).
Proof. unfold bind, utcnow, ret. by rewrite send_to_websocket_returns. Qed.

Lemma receive_disconnect env ws sid s :
  receive_step env ws sid FrameDisconnect s = (Ok Break, s).
Proof. reflexivity. Qed.

Lemma receive_not_json env ws sid s :
  receive_step env ws sid FrameNotJson s =
    (Ok Continue,
     deliver env (error_event "Invalid JSON message format" (clock env (ticks s)))
       {| mgr := mgr s; sent := sent s; db := db s;
          ticks := S (ticks s); uuids := uuids s; commits := commits s |} ws).
Proof.
  unfold receive_step, try_except, bind at 1, receive_json, raise.
  apply (tick_deliver_returns env ws (error_event "Invalid JSON message format")).
Qed.

Lemma receive_not_object env ws sid v s :
  is_object v = false →
  receive_step env ws sid (FrameJson v) s =
    (Ok Continue,
     deliver env
       (error_event "Error processing message: object has no attribute 'get'"
          (clock env (ticks s)))
       {| mgr := mgr s; sent := sent s; db := db s;
          ticks := S (ticks s); uuids := uuids s; commits := commits s |} ws).
Proof.
  intros Hv. unfold receive_step, try_except at 1, bind at 1, receive_json, ret at 1.
  destruct v; try discriminate; simpl; unfold try_except;
    by rewrite (tick_deliver_returns env ws
                  (error_event "Error processing message: object has no attribute 'get'")).
Qed.

Lemma receive_unknown_type env ws sid d s :
  eq_str (dict_get d "type" (VStr "message")) "message" = false →
  eq_str (dict_get d "type" (VStr "message")) "ping" = false →
  receive_step env ws sid (FrameJson (VDict d)) s = (Ok Continue, s).
Proof.
  intros H1 H2. unfold receive_step, try_except, bind at 1, receive_json, ret at 1.
  by rewrite H1, H2.
Qed.


Lemma dict_get_missing d key default :
  key ∉ d.*1 → dict_get d key default = default.
Proof.
  induction d as [|[k v] d IH]; intros H; [done|]. simpl.
  rewrite decide_False by set_solver. apply IH. set_solver.
Qed.

(** X17.  Input that cannot be handled is answered to the sender alone and
    never ends the loop: for text that is not JSON, and for JSON that is not
    an object, the step returns normally with the loop going on, writes
    nothing to the database, and delivers one error event to the sending
    WebSocket when its link takes it and nothing otherwise (the sender is
    then unregistered); no other WebSocket is sent anything. *)
Theorem bad_frame_answered_to_sender env ws sid f s :
  (f = FrameNotJson ∨ ∃ v, f = FrameJson v ∧ is_object v = false) →
  let r := receive_step env ws sid f s in
  ∃ msg,
    (f = FrameNotJson → msg = "Invalid JSON message format") ∧
    r.1 = Ok Continue ∧
    db r.2 = db s ∧
    delivered_since (length (sent s)) r.2 =
      (if send_ok env ws
       then [(ws, error_event msg (clock env (ticks s)))] else []) ∧
    mgr r.2 = (if send_ok env ws then mgr s else disconnect_mgr ws (mgr s)).
Proof.
  intros Hf r.
  assert (∃ msg, (f = FrameNotJson → msg = "Invalid JSON message format") ∧
            r = (Ok Continue,
                 deliver env (error_event msg (clock env (ticks s)))
                   {| mgr := mgr s; sent := sent s; db := db s;
                      ticks := S (ticks s); uuids := uuids s;
                      commits := commits s |} ws)) as (msg & Hmsg & Hr).
  { destruct Hf as [->|(v & -> & Hv)].
    - exists "Invalid JSON message format". split; [done|]. apply receive_not_json.
    - exists "Error processing message: object has no attribute 'get'".
      split; [discriminate|]. by apply receive_not_object. }
  exists msg. split; [done|]. rewrite Hr. unfold delivered_since. simpl.
  destruct (send_ok env ws) eqn:E.
  - rewrite deliver_ok by done. simpl. by rewrite drop_app_length.
  - rewrite deliver_fail by done. simpl. by rewrite drop_all.
Qed.

Lemma bad_frame_answered_to_sender_witness :
  ∃ msg,
    delivered_since (length (sent two_observers))
      (receive_step (example_env [] []) 1 "s1" (FrameJson (VList [])) two_observers).2
    = (if send_ok (example_env [] []) 1
       then [(1, error_event msg (clock (example_env [] []) (ticks two_observers)))]
       else []).
Proof.
  destruct (bad_frame_answered_to_sender (example_env [] []) 1 "s1"
              (FrameJson (VList [])) two_observers) as (msg & _ & _ & _ & H & _).
  - right. exists (VList []). split; reflexivity.
  - exists msg. exact H.
Defined.

(** X18.  How an object is dispatched on its type: without a type key it is
    handled as a user message; with a type that is neither "message" nor
    "ping" (another string, or a value that is not a string) it is ignored,
    the state being left exactly as it was. *)
Theorem object_dispatch_on_type env ws sid d s :
  ("type" ∉ d.*1 →
   receive_step env ws sid (FrameJson (VDict d)) s =
     (Ok Continue, (handle_user_message env sid d s).2)) ∧
  (eq_str (dict_get d "type" (VStr "message")) "message" = false →
   eq_str (dict_get d "type" (VStr "message")) "ping" = false →
   receive_step env ws sid (FrameJson (VDict d)) s = (Ok Continue, s)).
Proof.
  split.
  - intros H. apply receive_message. by rewrite dict_get_missing.
  - apply receive_unknown_type.
Qed.

Lemma object_dispatch_on_type_witness :
  receive_step (example_env [] []) 1 "s1"
    (FrameJson (VDict [("type", VStr "resize"); ("content", VStr "x")]))
    two_observers
  = (Ok Continue, two_observers)
  ∧ receive_step (example_env [] []) 1 "s1"
      (FrameJson (VDict [("content", VStr "x")])) two_observers
    = (Ok Continue,
       (handle_user_message (example_env [] []) "s1" [("content", VStr "x")]
          two_observers).2).
Proof.
  split.
  - apply (object_dispatch_on_type (example_env [] []) 1 "s1"
             [("type", VStr "resize"); ("content", VStr "x")] two_observers);
      reflexivity.
  - apply (object_dispatch_on_type (example_env [] []) 1 "s1"
             [("content", VStr "x")] two_observers).
    apply (bool_decide_unpack _). vm_compute. exact I.
Defined.



(** ** The endpoint *)





(** ** Counting connections *)

Lemma sum_list_at_least_length (l : list nat) :
  Forall (λ n, 1 ≤ n) l → length l ≤ sum_list l.
Proof. induction 1; simpl; lia. Qed.

Lemma sum_sizes_metadata (ac : gmap string (gset WebSocket)) :
  ∀ md, hub_consistent (Manager ac md) →
        sum_list (map_to_list (size <$> ac)).*2 = size md.
Proof.
  induction ac as [|sid c ac Hi IH] using map_ind; intros md [Hc Hne]; simpl in *.
  - rewrite fmap_empty, map_to_list_empty. simpl. symmetry.
    apply map_size_empty_iff, map_empty. intros w.
    destruct (md !! w) as [x|] eqn:E; [|done].
    destruct (proj1 (Hc w (session_id x))) as (c & Hx & _); [by eauto|].
    by rewrite lookup_empty in Hx.
  - set (P := λ p : WebSocket * metadata, session_id p.2 = sid).
    rewrite fmap_insert.
    rewrite map_to_list_insert by (by rewrite lookup_fmap, Hi).
    rewrite <- (map_filter_union_complement P md).
    rewrite map_size_disj_union by apply map_disjoint_filter_complement.
    simpl. f_equal.
    + rewrite <- (size_dom (filter P md)). f_equal. apply set_eq. intros w.
      rewrite elem_of_dom. unfold is_Some.
      setoid_rewrite map_lookup_filter_Some. unfold P. simpl. split.
      * intros Hw. destruct (proj2 (Hc w sid)) as (x & Hx & Hs).
        { exists c. by rewrite lookup_insert_eq. }
        eauto.
      * intros (x & Hx & Hs).
        destruct (proj1 (Hc w sid)) as (c' & Hc' & Hw); [by eauto|].
        rewrite lookup_insert_eq in Hc'. by injection Hc' as <-.
    + apply IH. split; simpl.
      * intros w sid'. setoid_rewrite map_lookup_filter_Some. unfold P. simpl.
        split.
        -- intros (x & [Hx Hns] & Hs). subst sid'.
           destruct (proj1 (Hc w (session_id x))) as (c' & Hc' & Hw); [by eauto|].
           rewrite lookup_insert_ne in Hc' by done. eauto.
        -- intros (c' & Hc' & Hw).
           assert (sid' ≠ sid) as Hns by (intros ->; congruence).
           destruct (proj2 (Hc w sid')) as (x & Hx & Hs).
           { exists c'. by rewrite lookup_insert_ne. }
           exists x. split; [split; [done|congruence]|done].
      * intros sid' c' Hc'. apply (Hne sid' c').
        rewrite lookup_insert_ne; [done|]. intros <-. congruence.
Qed.

(** X21.  In a consistent manager the overview of the WebSocket connections
    counts every registered connection exactly once: the total of
    connections is the number of metadata entries, the total of sessions is
    the number of keys of [active_connections] and is at most the total of
    connections, and a session is listed exactly when it has observers, with
    their number. *)
Theorem overview_counts_each_connection_once m :
  hub_consistent m →
  let o := get_websocket_overview m in
  total_connections o = size (connection_metadata m) ∧
  total_sessions o = size (active_connections m) ∧
  total_sessions o ≤ total_connections o ∧
  ∀ sid n, overview_sessions o !! sid = Some n ↔
           (0 < n ∧ n = size (observers m sid)).
Proof.
  intros Hc o. pose proof Hc as [_ Hne].
  assert (∀ sid n, get_all_sessions m !! sid = Some n ↔
                   (0 < n ∧ n = size (observers m sid))) as Hlk.
  { intros sid n. unfold get_all_sessions, observers. rewrite lookup_fmap.
    destruct (active_connections m !! sid) as [c|] eqn:E.
    - change (size <$> Some c) with (Some (size c)).
      change (default ∅ (Some c)) with c. split.
      + intros [= <-]. split; [|done].
        apply Hne in E. apply set_choose_L in E as [x Hx].
        assert (size c ≠ 0); [|lia].
        intros H0%size_empty_iff. set_solver.
      + intros [_ ->]. done.
    - change (default ∅ None) with (∅ : gset WebSocket).
      rewrite size_empty. split; [done|]. lia. }
  split_and!.
  - unfold o, get_websocket_overview, get_all_sessions. simpl.
    destruct m as [ac md]. by apply sum_sizes_metadata.
  - unfold o, get_websocket_overview, get_all_sessions. simpl.
    apply map_size_fmap.
  - unfold o, get_websocket_overview. simpl.
    rewrite <- (length_map_to_list (get_all_sessions m)).
    rewrite <- (length_fmap snd).
    apply sum_list_at_least_length, Forall_forall.
    intros n ([sid n'] & -> & Hin%elem_of_map_to_list)%list_elem_of_fmap.
    simpl. apply Hlk in Hin. lia.
  - done.
Qed.

Lemma overview_counts_each_connection_once_witness :
  total_connections (get_websocket_overview (mgr two_observers))
  = size (connection_metadata (mgr two_observers)).
Proof.
  apply (overview_counts_each_connection_once (mgr two_observers)).
  apply two_observers_consistent.
Defined.

(** X22.  [get_session_stats] only reads: it returns normally, its count is
    the one that [get_all_sessions] lists for the session (0 when the session
    is not listed), and it leaves the manager, the delivered frames and the
    database as they were. *)
Theorem session_stats_only_reads env sid s :
  let r := get_session_stats env sid s in
  ∃ st,
    r.1 = Ok st ∧
    stat_active_connections st = default 0 (get_all_sessions (mgr s) !! sid) ∧
    mgr r.2 = mgr s ∧ sent r.2 = sent s ∧ db r.2 = db s.
Proof.
  intros r. unfold r, get_session_stats, bind, get_mgr, get_all_sessions.
  rewrite lookup_fmap.
  destruct (active_connections (mgr s) !! sid) as [c|].
  - rewrite stats_entries_eq. eexists. split_and!; reflexivity.
  - eexists. split_and!; reflexivity.
Qed.

End HubFacts.
